(** * BB_wx_calcs/thermodynamics.py: thermodynamic equations

    A shallow embedding of the module and the properties of its
    functions.  The Python code is arithmetic on scalars, so the
    embedding is written once over an arithmetic interface [Arith] and
    read at two instances:

    - [binary64], IEEE double precision, which is what the interpreter
      runs ([float] and [numpy.float64] are both binary64);
    - [exact], the real numbers, which is the reading of the formulas
      as mathematics.

    What is not code of the module stays a parameter: [np.exp],
    [np.log] and the C library's [pow] behind [**] form the record
    [libm].  [libm_ref] is one instance, computed in binary64, for
    evaluating concrete calls. *)

From Stdlib Require Import Floats ZArith QArith Reals Lra Lia List Bool Arith.
Import ListNotations.

Set Warnings "-inexact-float".

(** ** Outcomes of evaluating Python code *)

(** The exceptions that float arithmetic raises. *)
Inductive exn : Set :=
| ZeroDivisionError
| OverflowError.

(** An evaluation returns a value, raises, or leaves the floats:
    [**] on a negative base and a fractional exponent returns a
    [complex].  Complex arithmetic is not tracked: [Complex] stands
    for "the evaluation goes on with complex numbers". *)
Inductive outcome (A : Type) : Type :=
| Ok (a : A)
| Raise (e : exn)
| Complex.
Arguments Ok {A} a.
Arguments Raise {A} e.
Arguments Complex {A}.

Definition bind {A B : Type} (m : outcome A) (k : A -> outcome B) : outcome B :=
  match m with
  | Ok a => k a
  | Raise e => Raise e
  | Complex => Complex
  end.

Declare Scope py_scope.
Delimit Scope py_scope with py.
Notation "x <- m ;; k" := (bind m (fun x => k))
  (at level 100, m at next level, right associativity) : py_scope.

(** Decimal literals are read as exact rationals; each instance of
    [Arith] says what a literal denotes. *)
Number Notation Q QArith_base.of_number QArith_base.to_number
  (via QArith_base.IQ mapping
     [Qmake => QArith_base.IQmake, Qmult => QArith_base.IQmult,
      Qdiv => QArith_base.IQdiv, Z.pow_pos => QArith_base.IZpow_pos,
      Z0 => QArith_base.IZ0, Zpos => QArith_base.IZpos,
      Zneg => QArith_base.IZneg])
  : py_scope.

(** ** The arithmetic interface *)

Class Arith (T : Type) : Type := {
  lit : Q -> T;                   (* the value of a decimal literal *)
  add : T -> T -> T;
  sub : T -> T -> T;
  mul : T -> T -> T;
  div : T -> T -> T;              (* division when it does not raise *)
  eq0 : T -> bool;                (* [y == 0.0], the test of float division *)
  np_exp : T -> T;                (* numpy.exp *)
  np_log : T -> T;                (* numpy.log *)
  np_power : T -> T -> T;         (* [**] with a numpy.float64 operand *)
  float_pow : T -> T -> outcome T (* [**] on two Python floats *)
}.

(** A scalar is a Python [float] or a [numpy.float64].  They hold the
    same numbers but differ on errors: float division by zero and
    float overflow in [**] raise, numpy's return inf or nan. *)
Inductive kind : Set := Py | Np.

Record num (T : Type) : Type := Num { knd : kind; val : T }.
Arguments Num {T} knd val.
Arguments knd {T} n.
Arguments val {T} n.

(** An operation with a [numpy.float64] operand is numpy's and
    returns a [numpy.float64]. *)
Definition join (a b : kind) : kind :=
  match a, b with
  | Py, Py => Py
  | _, _ => Np
  end.

Section Operators.
Context {T : Type} {A : Arith T}.

(** A float literal; an [int] literal next to a float is converted to
    the float of the same value. *)
Definition pyfloat (q : Q) : outcome (num T) := Ok (Num Py (lit q)).
Definition ret_num (x : num T) : outcome (num T) := Ok x.

(** Operands are evaluated left to right, then the operator applies. *)
Definition lift2 (f : num T -> num T -> outcome (num T))
    (a b : outcome (num T)) : outcome (num T) :=
  bind a (fun x => bind b (fun y => f x y)).

Definition add_num (x y : num T) : num T :=
  Num (join (knd x) (knd y)) (add (val x) (val y)).
Definition sub_num (x y : num T) : num T :=
  Num (join (knd x) (knd y)) (sub (val x) (val y)).
Definition mul_num (x y : num T) : num T :=
  Num (join (knd x) (knd y)) (mul (val x) (val y)).

Definition div_num (x y : num T) : outcome (num T) :=
  match knd x, knd y with
  | Py, Py => if eq0 (val y) then Raise ZeroDivisionError
              else Ok (Num Py (div (val x) (val y)))
  | _, _ => Ok (Num Np (div (val x) (val y)))
  end.

Definition pow_num (x y : num T) : outcome (num T) :=
  match knd x, knd y with
  | Py, Py => bind (float_pow (val x) (val y)) (fun v => Ok (Num Py v))
  | _, _ => Ok (Num Np (np_power (val x) (val y)))
  end.

Definition py_add := lift2 (fun x y => Ok (add_num x y)).
Definition py_sub := lift2 (fun x y => Ok (sub_num x y)).
Definition py_mul := lift2 (fun x y => Ok (mul_num x y)).
Definition py_div := lift2 div_num.
Definition py_pow := lift2 pow_num.

(** [np.exp] and [np.log] return a [numpy.float64] whatever they get. *)
Definition exp_ (a : outcome (num T)) : outcome (num T) :=
  bind a (fun x => Ok (Num Np (np_exp (val x)))).
Definition log_ (a : outcome (num T)) : outcome (num T) :=
  bind a (fun x => Ok (Num Np (np_log (val x)))).

End Operators.

#[warning="-uniform-inheritance"] Coercion pyfloat : Q >-> outcome.
Coercion ret_num : num >-> outcome.

Notation "a + b" := (py_add a b) : py_scope.
Notation "a - b" := (py_sub a b) : py_scope.
Notation "a * b" := (py_mul a b) : py_scope.
Notation "a / b" := (py_div a b) : py_scope.
Notation "a ** b" := (py_pow a b) (at level 30, right associativity) : py_scope.

(** ** The module, over any arithmetic *)

Section Thermodynamics.
Context {T : Type} {A : Arith T}.
Local Open Scope py_scope.

(** [c_to_K]: Celsius to Kelvin. *)
Definition c_to_K (c : num T) : outcome (num T) :=
  c + 273.15.

(** [TempPress_to_PotTemp]: Poisson's equation, theta = T (p0/p)^(R/cp). *)
Definition TempPress_to_PotTemp (temp press : num T) : outcome (num T) :=
  R <- 287.0 ;;
  cp <- 1004.0 ;;
  p0 <- 1000.0 ;;
  theta <- c_to_K temp * (p0 / press) ** (R / cp) ;;
  theta.

(** [DwptPress_to_MixRatio]: mixing ratio in g/kg from the dew point. *)
Definition DwptPress_to_MixRatio (Tdew press : num T) : outcome (num T) :=
  e <- 6.11 * 10 ** (7.5 * Tdew / (237.3 + Tdew)) ;;
  w <- 621.97 * (e / (press - e)) ;;
  w.

(** [svpwat]: saturation vapor pressure over water, in hPa, from K. *)
Definition svpwat (t : num T) : outcome (num T) :=
  a0 <- 0.999996876e0 ;;
  a1 <- -0.9082695004e-2 ;;
  a2 <- 0.7873616869e-4 ;;
  a3 <- -0.6111795727e-6 ;;
  a4 <- 0.4388418740e-8 ;;
  a5 <- -0.2988388486e-10 ;;
  a6 <- 0.2187442495e-12 ;;
  a7 <- -0.1789232111e-14 ;;
  a8 <- 0.1111201803e-16 ;;
  a9 <- -0.3099457145e-19 ;;
  b <- 0.61078e+1 ;;
  t <- t - 273.16 ;;
  b / (a0+t*(a1+t*(a2+t*(a3+t*(a4+t*(a5+t*(a6+t*(a7+t*(a8+t*a9))))))))) ** 8.0.

(** [satmixwat]: saturation mixing ratio over water, in g/kg. *)
Definition satmixwat (p t : num T) : outcome (num T) :=
  es <- svpwat t ;;
  (622.0 * es) / p.

(** [rh_to_mr_wat]: mixing ratio over water from relative humidity. *)
Definition rh_to_mr_wat (rh p t : num T) : outcome (num T) :=
  rh * 0.01 * satmixwat p t.

(** [THTE]: equivalent potential temperature.  The name [e] is bound
    twice, as in the source. *)
Definition THTE (p t td : num T) : outcome (num T) :=
  vapr <- 6.112 * exp_ ((17.67*td)/(td + 243.5)) ;;
  corr <- (1.001 + ((p - 100.0)/900.0)*0.0034) ;;
  e <- corr * vapr ;;
  mixr <- 0.62197*(e/(p - e))*1000.0 ;;
  TLCL <- (800.0 * (td + 273.15 - 56.0)/(800.0 + (td + 273.15 - 56.0) *
           log_ ((t + 273.15)/(td + 273.15)))) + 56.0 ;;
  E <- (287/1004)*(1.0 - (0.28*0.001*mixr)) ;;
  thtm <- (273.15 + t)*(1000/p)**E ;;
  e <- ((3.376/TLCL) - 0.00254) * (mixr * (1.0 + 0.81*0.001*mixr)) ;;
  thtm * exp_ e.

End Thermodynamics.

(** ** Binary64 *)

(** The binary64 number nearest to a rational (ties to even), which is
    how Python reads a decimal literal: the quotient is cut to at
    least 64 bits, a sticky bit records a remainder, and the result is
    rounded once. *)
Definition Q2F (q : Q) : float :=
  match Qnum q with
  | Z0 => PrimFloat.zero
  | n =>
    let a := Z.abs n in
    let d := Zpos (Qden q) in
    let k := Z.max 0 (64 + Z.log2 d - Z.log2 a) in
    let (quo, r) := Z.div_eucl (a * 2 ^ k) d in
    let m := (2 * quo + (if r =? 0 then 0 else 1))%Z in
    SF2Prim (binary_normalize prec emax (if n <? 0 then - m else m)%Z
                              (- (k + 1)) false)
  end.

(** The functions of the C library and of numpy that the module calls.
    They are not code of the module: every statement below that does
    not name an instance holds for all of them. *)
Class libm : Type := Libm {
  m_exp : float -> float;
  m_log : float -> float;
  m_pow : float -> float -> float
}.

Definition is_integer (x : float) : bool :=
  match Prim2SF x with
  | S754_zero _ => true
  | S754_finite _ m e =>
      (0 <=? e)%Z || (Z.land (Zpos m) (Z.ones (- e)) =? 0)%Z
  | _ => false
  end.

(** CPython's [DOUBLE_IS_ODD_INTEGER]. *)
Definition is_odd_integer (x : float) : bool :=
  match Prim2SF x with
  | S754_finite _ m e =>
      if (0 <? e)%Z then false
      else (Z.land (Zpos m) (Z.ones (- e)) =? 0)%Z
           && Z.odd (Z.shiftr (Zpos m) (- e))
  | _ => false
  end.

(** The value of a finite float, in units of 2^-1074, the smallest
    positive float (0 for the infinities and nan). *)
Definition scaled_SF (x : spec_float) : Z :=
  match x with
  | S754_finite s m e => cond_Zopp s (Zpos m) * 2 ^ (e + 1074)
  | _ => 0
  end.

Definition scaled (x : float) : Z := scaled_SF (Prim2SF x).

Definition is_finite (x : float) : bool :=
  match Prim2SF x with
  | S754_zero _ | S754_finite _ _ _ => true
  | _ => false
  end.

Section FloatPow.
Context (L : libm).
Local Open Scope float_scope.

(** [float ** float], as CPython's [float_pow] computes it: the special
    cases are decided before the C library is called; a negative base
    with a fractional exponent is handed to complex exponentiation; an
    infinite result of [pow] on finite operands raises [OverflowError]. *)
Definition py_float_pow (iv iw : float) : outcome float :=
  if iw =? 0 then Ok 1
  else if is_nan iv then Ok iv
  else if is_nan iw then Ok (if iv =? 1 then 1 else iw)
  else if is_infinity iw then
    let iv := abs iv in
    if iv =? 1 then Ok 1
    else if Bool.eqb (0 <? iw) (1 <? iv) then Ok (abs iw)
    else Ok 0
  else if is_infinity iv then
    if 0 <? iw then Ok (if is_odd_integer iw then iv else abs iv)
    else Ok (if is_odd_integer iw then (if get_sign iv then -0 else 0) else 0)
  else if iv =? 0 then
    if iw <? 0 then Raise ZeroDivisionError
    else Ok (if is_odd_integer iw then iv else 0)
  else if (iv <? 0) && negb (is_integer iw) then
    if is_infinity (m_pow (abs iv) iw) then Raise OverflowError else Complex
  else
    let negate_result := (iv <? 0) && is_odd_integer iw in
    let iv := if iv <? 0 then - iv else iv in
    if iv =? 1 then Ok (if negate_result then -1 else 1)
    else
      let ix := m_pow iv iw in
      if is_infinity ix then Raise OverflowError
      else Ok (if negate_result then - ix else ix).

End FloatPow.

#[export] Instance binary64 (L : libm) : Arith float := {|
  lit := Q2F;
  add := PrimFloat.add;
  sub := PrimFloat.sub;
  mul := PrimFloat.mul;
  div := PrimFloat.div;
  eq0 := fun y => PrimFloat.eqb y PrimFloat.zero;
  np_exp := @m_exp L;
  np_log := @m_log L;
  np_power := @m_pow L;
  float_pow := py_float_pow L
|}.

(** ** The wet-bulb solver *)

(** A [while] loop: [None] when the fuel runs out before the condition
    fails, so that a result is a fact about the loop and not about the
    fuel. *)
Fixpoint while_ {S : Type} (cond : S -> bool) (body : S -> outcome S)
    (fuel : nat) (s : S) : option (outcome S) :=
  match fuel with
  | O => if cond s then None else Some (Ok s)
  | Datatypes.S fuel' =>
      if cond s then
        match body s with
        | Ok s' => while_ cond body fuel' s'
        | Raise e => Some (Raise e)
        | Complex => Some Complex
        end
      else Some (Ok s)
  end.

(** The variables the loop of [WBT] assigns, and a count of the calls
    of [THTE] (a ghost: the source does not count them). *)
Record wbt_state : Type := WbtState {
  tgnu : num float;
  iterN : nat;
  convrg : bool;
  calls : nat
}.

(** A statement runs on the variables: it gives an outcome and the
    state it leaves.  An exception does not undo the assignments made
    before it. *)
Definition stmt (A : Type) : Type := wbt_state -> outcome A * wbt_state.

Definition sbind {A B : Type} (m : stmt A) (k : A -> stmt B) : stmt B :=
  fun st =>
    match m st with
    | (Ok a, st') => k a st'
    | (Raise e, st') => (Raise e, st')
    | (Complex, st') => (Complex, st')
    end.

Declare Scope stmt_scope.
Delimit Scope stmt_scope with stmt.
Notation "x <- m ;; k" := (sbind m (fun x => k))
  (at level 100, m at next level, right associativity) : stmt_scope.
Notation "m ;; k" := (sbind m (fun _ => k))
  (at level 100, right associativity) : stmt_scope.

(** An expression assigns nothing; a variable is read. *)
Definition expr {A : Type} (o : outcome A) : stmt A := fun st => (o, st).
Definition read {A : Type} (f : wbt_state -> A) : stmt A :=
  fun st => (Ok (f st), st).
Definition skip : stmt unit := fun st => (Ok tt, st).

(** [iterN += 1], [tgnu = v], [convrg = 1]. *)
Definition incr_iterN : stmt unit :=
  fun st => (Ok tt, {| tgnu := tgnu st; iterN := S (iterN st);
                       convrg := convrg st; calls := calls st |}).
Definition set_tgnu (v : num float) : stmt unit :=
  fun st => (Ok tt, {| tgnu := v; iterN := iterN st;
                       convrg := convrg st; calls := calls st |}).
Definition set_convrg : stmt unit :=
  fun st => (Ok tt, {| tgnu := tgnu st; iterN := iterN st;
                       convrg := true; calls := calls st |}).

(** The count of calls moves by one, which is what a call of [THTE]
    does to it, and nothing else does. *)
Definition tick : stmt unit :=
  fun st => (Ok tt, {| tgnu := tgnu st; iterN := iterN st;
                       convrg := convrg st; calls := S (calls st) |}).

(** The state that a statement leaves when it returns. *)
Definition returned (r : outcome unit * wbt_state) : outcome wbt_state :=
  bind (fst r) (fun _ => Ok (snd r)).

(** The loop again, keeping the state in which an exception leaves
    the variables. *)
Fixpoint while_st (cond : wbt_state -> bool) (pass : stmt unit)
    (fuel : nat) (st : wbt_state) : option (outcome unit * wbt_state) :=
  match fuel with
  | O => if cond st then None else Some (Ok tt, st)
  | Datatypes.S fuel' =>
      if cond st then
        match pass st with
        | (Ok _, st') => while_st cond pass fuel' st'
        | (o, st') => Some (o, st')
        end
      else Some (Ok tt, st)
  end.

Section WBT.
Context (L : libm).
Local Open Scope py_scope.

Definition gt_lit (x : num float) (q : Q) : bool := PrimFloat.ltb (Q2F q) (val x).
Definition lt_lit (x : num float) (q : Q) : bool := PrimFloat.ltb (val x) (Q2F q).
Definition np_abs (x : num float) : num float := Num Np (PrimFloat.abs (val x)).
Definition np_nan : num float := Num Py PrimFloat.nan.

(** Lines 101-104: the first guess [tg].  Nothing reads it afterwards;
    its evaluation can still raise. *)
Definition WBT_tg (pres tht : num float) : outcome (num float) :=
  val <- (if gt_lit tht 270 then tht - 270.0 else 0) ;;
  tg <- (tht - 0.5 * val ** 1.05) * (pres/1000.0) ** 0.2 ;;
  tg.

Definition epsi : Q := 0.001.

(** A complex [tg] is a value like another: the product of a float and
    a complex does not raise, and [tg] is dropped. *)
Definition WBT_init (pres tht : num float) : outcome wbt_state :=
  match WBT_tg pres tht with
  | Raise e => Raise e
  | Ok _ | Complex =>
      tgnu <- tht - 273.15 ;;
      Ok {| tgnu := tgnu; iterN := 0; convrg := false; calls := 0 |}
  end.

(** [while (iterN < 100) and (convrg != 1)] *)
Definition WBT_cond (st : wbt_state) : bool :=
  (iterN st <? 100)%nat && negb (convrg st).

(** A call of [THTE] from the loop: the call is counted, then made. *)
Definition call_THTE (p t td : num float) : stmt (num float) :=
  (tick ;; expr (THTE p t td))%stmt.

(** Lines 114-124, one pass of the loop. *)
Definition WBT_pass (pres tht : num float) : stmt unit :=
  (incr_iterN ;;
   g <- read tgnu ;;
   tgnup <- expr (g + 1.0) ;;
   tenu <- call_THTE pres g g ;;
   tenup <- call_THTE pres tgnup tgnup ;;
   denom <- expr (tenup - tenu) ;;
   if gt_lit denom 0 then
     cor <- expr ((tht - tenu)/(tenup - tenu)) ;;
     g <- read tgnu ;;
     v <- expr (g + cor) ;;
     set_tgnu v ;;
     if lt_lit (np_abs cor) epsi then set_convrg else skip
   else skip)%stmt.

(** The state after a pass that returns. *)
Definition WBT_body (pres tht : num float) (st : wbt_state) : outcome wbt_state :=
  returned (WBT_pass pres tht st).

Definition WBT_result (st : wbt_state) : outcome (num float) :=
  if negb (convrg st) then Ok np_nan
  else tgnu st + 273.15.

(** The final state of the loop, for a given fuel. *)
Definition WBT_loop (fuel : nat) (pres tht : num float) : option (outcome wbt_state) :=
  match WBT_init pres tht with
  | Ok st0 => while_ WBT_cond (WBT_body pres tht) fuel st0
  | Raise e => Some (Raise e)
  | Complex => Some Complex
  end.

Definition WBT_fuel (fuel : nat) (pres tht : num float) : option (outcome (num float)) :=
  option_map (fun o => bind o WBT_result) (WBT_loop fuel pres tht).

(** [WBT]: one hundred iterations are all the loop can make. *)
Definition WBT (pres tht : num float) : option (outcome (num float)) :=
  WBT_fuel 100 pres tht.

End WBT.

(** ** A reference instance of [libm]

    [exp], [log] and [pow] in binary64, by argument reduction and a
    polynomial; they follow the C standard on zero, infinity and nan
    and are within a few units in the last place elsewhere.  The
    concrete calls below are evaluated on it. *)
Module Ref.
Local Open Scope float_scope.

Definition ln2_hi : float := 0x1.62e42fee00000p-1.
Definition ln2_lo : float := 0x1.a39ef35793c76p-33.
Definition inv_ln2 : float := 0x1.71547652b82fep+0.
Definition sqrt_half : float := 0x1.6a09e667f3bcdp-1.

(** The integer that a float holds (0 when it holds none). *)
Definition Z_of_float (x : float) : Z :=
  match Prim2SF x with
  | S754_finite s m e =>
      let v := Z.shiftl (Zpos m) e in if s then Z.opp v else v
  | _ => 0%Z
  end.

Definition float_of_Z (z : Z) : float :=
  match z with
  | Z0 => 0
  | Zpos _ => of_uint63 (Uint63.of_Z z)
  | Zneg p => - of_uint63 (Uint63.of_Z (Zpos p))
  end.

Fixpoint horner (cs : list float) (x : float) : float :=
  match cs with
  | [] => 0
  | c :: cs' => c + x * horner cs' x
  end.

(** 1, 1, 1/2!, 1/3!, ... *)
Fixpoint inv_factorials (n : nat) (acc k : float) : list float :=
  match n with
  | O => []
  | S n' => acc :: inv_factorials n' (acc / (k + 1)) (k + 1)
  end.

(** 1, 1/3, 1/5, ... *)
Fixpoint inv_odds (n : nat) (d : float) : list float :=
  match n with
  | O => []
  | S n' => (1 / d) :: inv_odds n' (d + 2)
  end.

Definition exp (x : float) : float :=
  if is_nan x then nan
  else if 709.782712893384 <? x then infinity
  else if x <? -745.2 then 0
  else
    let k := (x * inv_ln2 + 0x1.8p52) - 0x1.8p52 in
    let r := (x - k * ln2_hi) - k * ln2_lo in
    Z.ldexp (horner (inv_factorials 15 1 0) r) (Z_of_float k).

Definition log (x : float) : float :=
  if is_nan x then nan
  else if x <? 0 then nan
  else if x =? 0 then neg_infinity
  else if x =? infinity then infinity
  else
    let (m, e) := Z.frexp x in
    let (m, e) := if m <? sqrt_half then (m * 2, (e - 1)%Z) else (m, e) in
    let s := (m - 1) / (m + 1) in
    let ef := float_of_Z e in
    ef * ln2_hi + (2 * s * horner (inv_odds 14 1) (s * s) + ef * ln2_lo).

Definition pow (x y : float) : float :=
  if y =? 0 then 1
  else if x =? 1 then 1
  else if is_nan x || is_nan y then nan
  else if is_infinity y then
    if abs x =? 1 then 1
    else if Bool.eqb (0 <? y) (1 <? abs x) then infinity else 0
  else if x =? 0 then
    if y <? 0 then (if is_odd_integer y && get_sign x then neg_infinity else infinity)
    else (if is_odd_integer y then x else 0)
  else if x =? infinity then (if 0 <? y then infinity else 0)
  else if x =? neg_infinity then
    if 0 <? y then (if is_odd_integer y then neg_infinity else infinity)
    else (if is_odd_integer y then -0 else 0)
  else if x <? 0 then
    if is_integer y then
      let r := exp (y * log (- x)) in
      if is_odd_integer y then - r else r
    else nan
  else exp (y * log x).

End Ref.

Definition libm_ref : libm :=
  {| m_exp := Ref.exp; m_log := Ref.log; m_pow := Ref.pow |}.

(** ** Exact arithmetic *)

Definition R_eq0 (x : R) : bool := if Req_EM_T x 0 then true else false.

(** [float ** float] on real numbers: no overflow, the other cases as
    in [py_float_pow]. *)
Definition R_float_pow (x y : R) : outcome R :=
  if Req_EM_T y 0 then Ok 1%R
  else if Req_EM_T x 0 then
    (if Rlt_dec y 0 then Raise ZeroDivisionError else Ok 0%R)
  else if Rlt_dec x 0 then
    (if Req_EM_T y (IZR (Int_part y))
     then Ok (if Z.odd (Int_part y) then (- Rpower (- x) y)%R else Rpower (- x) y)
     else Complex)
  else Ok (Rpower x y).

#[export] Instance exact : Arith R := {|
  lit := Q2R;
  add := Rplus;
  sub := Rminus;
  mul := Rmult;
  div := Rdiv;
  eq0 := R_eq0;
  np_exp := exp;
  np_log := ln;
  np_power := Rpower;
  float_pow := R_float_pow
|}.

(** ** What [THTE] computes and when it raises *)

Section Values.
Context {T : Type} {A : Arith T}.

Definition is_py (x : num T) : bool :=
  match knd x with Py => true | Np => false end.

(** The three divisions of [THTE] whose operands can both be Python
    floats: by [td + 243.5], by [td + 273.15] and by [p]. *)
Definition THTE_raises (p t td : num T) : bool :=
  (is_py td && eq0 (add (val td) (lit 243.5%py)))
  || (is_py t && is_py td && eq0 (add (val td) (lit 273.15%py)))
  || (is_py p && eq0 (val p)).

(** The number [THTE] returns, read off its run on numpy scalars
    (where nothing raises). *)
Definition THTE_value (p t td : T) : T :=
  match THTE (Num Np p) (Num Np t) (Num Np td) with
  | Ok v => val v
  | _ => lit 0%py
  end.

End Values.

(** [THTE] step by step, as numbers: the operations of lines 145-157
    in their order, with the constants and the grouping of the source
    ([.28*.001], [.62197*(e/(p - e))*1000.]), and then the closed form
    of the specification (section 4.2, steps 1 to 8) in the same
    arithmetic, with its constants and its grouping ([0.00028],
    [0.62197*e/(p-e)*1000]).  Neither has kinds or exceptions. *)
Declare Scope arith_scope.
Delimit Scope arith_scope with arith.

Section Formulas.
Context {T : Type} {A : Arith T}.
Local Open Scope py_scope.
Local Notation "x + y" := (add x y) : arith_scope.
Local Notation "x - y" := (sub x y) : arith_scope.
Local Notation "x * y" := (mul x y) : arith_scope.
Local Notation "x / y" := (div x y) : arith_scope.
Local Notation "x ** y" := (np_power x y)
  (at level 30, right associativity) : arith_scope.
Local Notation "# q" := (lit q) (at level 1, format "# q") : arith_scope.
Local Open Scope arith_scope.



End Formulas.

(** The closed form of the specification (section 4.2, steps 1 to 8),
    on real numbers. *)
Section ClosedForm.
Local Open Scope R_scope.


End ClosedForm.

(** Scalars of each kind, and the state in which the loop of [WBT]
    starts from a given guess. *)
Definition py (x : float) : num float := Num Py x.
Definition np (x : float) : num float := Num Np x.

Definition WBT_from (g : num float) : wbt_state :=
  {| tgnu := g; iterN := 0; convrg := false; calls := 0 |}.

(** ** Notions used in the statements *)

Section SolverNotions.
Context (L : libm).
Local Open Scope float_scope.

(** [THTE(pres, g, g)] as a number, and the Newton correction the loop
    computes at the guess [g]. *)
Definition tenu_of (pres g : num float) : float :=
  THTE_value (val pres) (val g) (val g).

Definition cor_of (pres tht g : num float) : float :=
  (val tht - tenu_of pres g)
  / (tenu_of pres (add_num g (py (Q2F 1.0))) - tenu_of pres g).

(** At the guess [g] both calls of [THTE] return and the slope
    [tenup - tenu] is not positive (zero, negative or nan). *)
Definition stuck (pres g : num float) : Prop :=
  THTE_raises pres g g
  || THTE_raises pres (add_num g (py (Q2F 1.0))) (add_num g (py (Q2F 1.0)))
  = false /\
  (0 <? tenu_of pres (add_num g (py (Q2F 1.0))) - tenu_of pres g) = false.

(** The loop counts its passes, two calls of [THTE] each, and stops
    at one hundred. *)
Definition counted (st : wbt_state) : Prop :=
  (iterN st <= 100)%nat /\ calls st = (2 * iterN st)%nat.

(** The state [st] was reached by a pass that set the flag: at some
    guess [g] both calls of [THTE] returned, the slope was positive,
    the correction [cor] was below [epsi] in absolute value, and
    [tgnu] is [g + cor]. *)
Definition newton_step (pres tht : num float) (st : wbt_state) : Prop :=
  exists g tenu tenup : num float,
    let g1 := add_num g (py 1) in
    let cor := (val tht - val tenu) / (val tenup - val tenu) in
    THTE pres g g = Ok tenu /\ THTE pres g1 g1 = Ok tenup /\
    (0 <? val tenup - val tenu) = true /\
    (abs cor <? 0.001) = true /\
    tgnu st = np (val g + cor).

(** The guess is nan and the flag is not set. *)
Definition nan_guess (st : wbt_state) : Prop :=
  val (tgnu st) = nan /\ convrg st = false.

(** Two states of the loop, the second of a run on numpy scalars, that
    hold the same numbers; a guess that set the flag is a numpy scalar
    in both. *)
Definition same_run (st st' : wbt_state) : Prop :=
  val (tgnu st) = val (tgnu st') /\ knd (tgnu st') = Np /\
  iterN st = iterN st' /\ convrg st = convrg st' /\ calls st = calls st' /\
  (convrg st = true -> knd (tgnu st) = Np).


End SolverNotions.

Arguments THTE_value : simpl never.
Arguments THTE_raises : simpl never.
Arguments gt_lit : simpl never.
Arguments lt_lit : simpl never.
Arguments Q2F : simpl never.
Arguments np_abs : simpl never.

(** * Properties *)

(** ** Binary64 *)

(** [Q2F] reads the literals of the module as the parser of floats
    does. *)
Lemma Q2F_literals :
  forallb (fun c => PrimFloat.Leibniz.eqb (Q2F (fst c)) (snd c))
    [(273.15%py, 273.15%float); (273.16%py, 273.16%float);
     (0.999996876e0%py, 0.999996876e0%float);
     ((-0.9082695004e-2)%py, (-0.9082695004e-2)%float);
     (0.7873616869e-4%py, 0.7873616869e-4%float);
     ((-0.6111795727e-6)%py, (-0.6111795727e-6)%float);
     (0.4388418740e-8%py, 0.4388418740e-8%float);
     ((-0.2988388486e-10)%py, (-0.2988388486e-10)%float);
     (0.2187442495e-12%py, 0.2187442495e-12%float);
     ((-0.1789232111e-14)%py, (-0.1789232111e-14)%float);
     (0.1111201803e-16%py, 0.1111201803e-16%float);
     ((-0.3099457145e-19)%py, (-0.3099457145e-19)%float);
     (0.61078e+1%py, 0.61078e+1%float);
     (6.112%py, 6.112%float); (17.67%py, 17.67%float);
     (243.5%py, 243.5%float); (1.001%py, 1.001%float);
     (0.0034%py, 0.0034%float); (0.62197%py, 0.62197%float);
     (3.376%py, 3.376%float); (0.00254%py, 0.00254%float);
     (0.28%py, 0.28%float); (0.81%py, 0.81%float);
     (0.001%py, 0.001%float); (1.05%py, 1.05%float);
     (0.2%py, 0.2%float); (0.5%py, 0.5%float); (0.01%py, 0.01%float);
     (6.11%py, 6.11%float); (7.5%py, 7.5%float);
     (237.3%py, 237.3%float); (621.97%py, 621.97%float);
     (5e-324%py, 5e-324%float); (1e400%py, infinity)] = true.
Proof. vm_compute. reflexivity. Qed.

(** The reference functions at a few points. *)
Lemma libm_ref_values :
  Ref.exp 1 = 2.7182818284590455%float /\
  Ref.exp 0 = 1%float /\
  Ref.log 10 = 2.3025850929940459%float /\
  Ref.log 1 = 0%float /\
  Ref.pow 2 10 = 1024%float /\
  Ref.pow 10 0.5 = 3.1622776601683795%float.
Proof. vm_compute. repeat split; reflexivity. Qed.

Section FloatFacts.
Local Open Scope float_scope.

(** nan is the float that differs from itself; it absorbs the
    subtraction and fails every comparison. *)
Lemma SFcompare_refl x : x <> S754_nan -> SFcompare x x = Some Eq.
Proof.
  destruct x as [s|s| |s m e]; intros H; try congruence; cbn.
  - reflexivity.
  - destruct s; reflexivity.
  - rewrite Z.compare_refl, Pos.compare_cont_refl. destruct s; reflexivity.
Qed.

Lemma is_nan_spec x : is_nan x = true -> Prim2SF x = S754_nan.
Proof.
  unfold is_nan. rewrite FloatAxioms.eqb_spec. unfold SFeqb. intros H.
  destruct (Prim2SF x) eqn:E; try reflexivity;
    rewrite SFcompare_refl in H by discriminate; discriminate.
Qed.

Lemma is_nan_eq x : is_nan x = true -> x = nan.
Proof.
  intros H. apply Prim2SF_inj. rewrite (is_nan_spec _ H). reflexivity.
Qed.

Lemma sub_nan_r x : x - nan = nan.
Proof.
  apply Prim2SF_inj. rewrite sub_spec. change (Prim2SF nan) with S754_nan.
  unfold SF64sub, SFsub. destruct (Prim2SF x); reflexivity.
Qed.

Lemma ltb_nan_r x : (x <? nan) = false.
Proof.
  rewrite FloatAxioms.ltb_spec. change (Prim2SF nan) with S754_nan.
  unfold SFltb, SFcompare. destruct (Prim2SF x); reflexivity.
Qed.

Lemma nan_slope a b : is_nan a = true -> (0 <? b - a) = false.
Proof. intros H. rewrite (is_nan_eq _ H), sub_nan_r. apply ltb_nan_r. Qed.

(** A float times 1.0 is that float: the product of the mantissas is
    the mantissa shifted by the 52 bits that the rounding takes back. *)
Lemma fexp_canonical m e :
  canonical_mantissa prec emax m e = true ->
  fexp prec emax (Zpos (digits2_pos m) + e) = e.
Proof. unfold canonical_mantissa. intros H. now apply Z.eqb_eq. Qed.

Lemma digits2_shift_52 m :
  Zpos (digits2_pos (m * 4503599627370496)) = (Zpos (digits2_pos m) + 52)%Z.
Proof. rewrite Pos.mul_comm. cbn [Pos.mul digits2_pos]. lia. Qed.

Lemma shr_52 m :
  SpecFloat.iter_pos shr_1 52
    {| shr_m := Zpos (m * 4503599627370496); shr_r := false; shr_s := false |}
  = {| shr_m := Zpos m; shr_r := false; shr_s := false |}.
Proof. rewrite Pos.mul_comm. reflexivity. Qed.

Lemma mul_one_r x : x * 1 = x.
Proof.
  apply Prim2SF_inj. rewrite mul_spec.
  change (Prim2SF 1) with (S754_finite false 4503599627370496 (-52)).
  pose proof (Prim2SF_valid x) as V.
  destruct (Prim2SF x) as [s|s| |s m e]; cbn [SF64mul SFmul];
    rewrite ?xorb_false_r; try reflexivity.
  cbn [valid_binary] in V. unfold SpecFloat.bounded in V.
  apply andb_prop in V. destruct V as [Hc He].
  unfold binary_round_aux, shr_fexp. cbn [Zdigits2 shr_record_of_loc].
  rewrite digits2_shift_52.
  replace (Z.pos (digits2_pos m) + 52 + (e + -52))%Z
    with (Z.pos (digits2_pos m) + e)%Z by lia.
  rewrite (fexp_canonical _ _ Hc).
  replace (e - (e + -52))%Z with 52%Z by lia.
  cbn [shr]. rewrite shr_52.
  replace (e + -52 + 52)%Z with e by lia.
  cbn [shr_m loc_of_shr_record round_nearest_even Zdigits2].
  rewrite (fexp_canonical _ _ Hc), Z.sub_diag. cbn [shr shr_m].
  rewrite He. reflexivity.
Qed.

(** The two ways the constant 0.00028 can be written differ by a unit
    in the last place: equalities of formulas are facts of exact
    arithmetic. *)
Lemma product_of_literals_rounds :
  0.28 * 0.001 = 0.00028000000000000003 /\
  PrimFloat.Leibniz.eqb (0.28 * 0.001) 0.00028 = false.
Proof. vm_compute. split; reflexivity. Qed.

(** nan absorbs the other operations as well. *)
Lemma sub_nan_l x : nan - x = nan.
Proof.
  apply Prim2SF_inj. rewrite sub_spec. change (Prim2SF nan) with S754_nan.
  reflexivity.
Qed.

Lemma add_nan_l x : nan + x = nan.
Proof.
  apply Prim2SF_inj. rewrite add_spec. change (Prim2SF nan) with S754_nan.
  reflexivity.
Qed.

Lemma add_nan_r x : x + nan = nan.
Proof.
  apply Prim2SF_inj. rewrite add_spec. change (Prim2SF nan) with S754_nan.
  unfold SF64add, SFadd. destruct (Prim2SF x); reflexivity.
Qed.

Lemma div_nan_l x : nan / x = nan.
Proof.
  apply Prim2SF_inj. rewrite div_spec. change (Prim2SF nan) with S754_nan.
  reflexivity.
Qed.

Lemma ltb_nan_l x : (nan <? x) = false.
Proof.
  rewrite FloatAxioms.ltb_spec. change (Prim2SF nan) with S754_nan.
  reflexivity.
Qed.

Lemma eqb_nan_l x : (nan =? x) = false.
Proof.
  rewrite FloatAxioms.eqb_spec. change (Prim2SF nan) with S754_nan.
  reflexivity.
Qed.

(** The product commutes, so 1.0 is neutral on the left too. *)
Lemma SFmul_comm x y : SFmul prec emax x y = SFmul prec emax y x.
Proof.
  destruct x as [sx|sx| |sx mx ex], y as [sy|sy| |sy my ey]; cbn [SFmul];
    rewrite ?(xorb_comm sx sy); try reflexivity.
  now rewrite (Pos.mul_comm mx my), (Z.add_comm ex ey).
Qed.

Lemma mul_comm x y : x * y = y * x.
Proof. apply Prim2SF_inj. rewrite !mul_spec. apply SFmul_comm. Qed.

Lemma mul_one_l x : 1 * x = x.
Proof. rewrite mul_comm. apply mul_one_r. Qed.

(** A float below zero is neither nan nor zero; a float equal to zero
    is one of the two zeros, and dividing by it gives an infinity. *)
Lemma ltb_0_facts x : (x <? 0) = true -> is_nan x = false /\ (x =? 0) = false.
Proof.
  unfold is_nan. rewrite FloatAxioms.ltb_spec, !FloatAxioms.eqb_spec.
  change (Prim2SF 0) with (S754_zero false).
  unfold SFltb, SFeqb. intros H.
  destruct (Prim2SF x) as [s|s| |s m e]; try discriminate.
  - destruct s; [|discriminate]. split; reflexivity.
  - destruct s; [|discriminate]. cbn.
    rewrite Z.compare_refl, Pos.compare_cont_refl. split; reflexivity.
Qed.

Lemma eqb_0_spec x : (x =? 0) = true -> exists s, Prim2SF x = S754_zero s.
Proof.
  rewrite FloatAxioms.eqb_spec. change (Prim2SF 0) with (S754_zero false).
  unfold SFeqb. destruct (Prim2SF x) as [s|s| |s m e]; try discriminate; eauto.
  - destruct s; discriminate.
  - destruct s; discriminate.
Qed.

Lemma div_by_zero p x :
  (p =? 0) = true -> is_infinity (x / p) || is_nan (x / p) = true.
Proof.
  intros H. destruct (eqb_0_spec p H) as [s E].
  unfold is_infinity, is_nan.
  rewrite !FloatAxioms.eqb_spec, abs_spec, div_spec, E.
  destruct (Prim2SF x) as [[|]|[|]| |[|] m e], s; reflexivity.
Qed.

Lemma div_by_zero_is_infinite x : (x =? 0) = true -> is_infinity (1000 / x) = true.
Proof.
  intros H. destruct (eqb_0_spec x H) as [s E].
  unfold is_infinity. rewrite FloatAxioms.eqb_spec, abs_spec, div_spec, E.
  destruct s; reflexivity.
Qed.

End FloatFacts.

(** ** Exact additions and subtractions *)

Section Exactness.
Local Open Scope Z_scope.

Lemma iter_pos_nat {A} (f : A -> A) n : forall x,
  SpecFloat.iter_pos f n x = Nat.iter (Pos.to_nat n) f x.
Proof.
  induction n as [n IH|n IH|]; intros x; cbn [SpecFloat.iter_pos].
  - rewrite !IH, <- Nat.iter_add, <- Nat.iter_succ_r. f_equal. lia.
  - rewrite !IH, <- Nat.iter_add. f_equal. lia.
  - reflexivity.
Qed.

Lemma Pos_iter_nat {A} (f : A -> A) n : forall x,
  Pos.iter f x n = Nat.iter (Pos.to_nat n) f x.
Proof.
  induction n as [n IH|n IH|]; intros x; cbn [Pos.iter].
  - rewrite !IH, <- Nat.iter_add. 
    replace (Pos.to_nat n~1) with (S (Pos.to_nat n + Pos.to_nat n))%nat by lia.
    reflexivity.
  - rewrite !IH, <- Nat.iter_add. f_equal. lia.
  - reflexivity.
Qed.

(** A mantissa shifted left by [n] bits, and shifted back. *)
Lemma shl_nat_value n m : Zpos (Nat.iter n xO m) = Zpos m * 2 ^ Z.of_nat n.
Proof.
  induction n as [|n IH].
  - cbn. lia.
  - rewrite Nat.iter_succ, Pos2Z.inj_xO, IH, Nat2Z.inj_succ, Z.pow_succ_r by lia. ring.
Qed.

Lemma shl_nat_digits n m :
  Zpos (digits2_pos (Nat.iter n xO m)) = Zpos (digits2_pos m) + Z.of_nat n.
Proof.
  induction n as [|n IH].
  - cbn. lia.
  - rewrite Nat.iter_succ. cbn [digits2_pos]. rewrite Pos2Z.inj_succ, IH. lia.
Qed.

Lemma shr_nat_exact n m :
  Nat.iter n shr_1 {| shr_m := Zpos (Nat.iter n xO m); shr_r := false; shr_s := false |}
  = {| shr_m := Zpos m; shr_r := false; shr_s := false |}.
Proof.
  induction n as [|n IH].
  - reflexivity.
  - rewrite Nat.iter_succ_r, Nat.iter_succ. cbn [shr_1 orb]. exact IH.
Qed.

(** A positive that is [m * 2^k] is [m] shifted. *)
Lemma shifted_eq z m k : 0 <= k -> Zpos z = Zpos m * 2 ^ k ->
  z = Nat.iter (Z.to_nat k) xO m.
Proof.
  intros Hk H. apply Pos2Z.inj. rewrite shl_nat_value, Z2Nat.id by exact Hk. exact H.
Qed.

Lemma fexp_ge e : -1074 <= fexp prec emax e.
Proof. unfold fexp, emin, prec, emax. lia. Qed.

Lemma bounded_facts m e : SpecFloat.bounded prec emax m e = true ->
  fexp prec emax (Zpos (digits2_pos m) + e) = e /\ e <= emax - prec /\ -1074 <= e.
Proof.
  unfold SpecFloat.bounded. intros H. apply andb_prop in H. destruct H as [Hc He].
  apply fexp_canonical in Hc. apply Z.leb_le in He.
  split; [exact Hc|]. split; [exact He|]. rewrite <- Hc. apply fexp_ge.
Qed.

(** Rounding leaves a canonical mantissa as it is, and finds it from
    any mantissa and exponent of the same value. *)
Lemma binary_round_aux_canonical s m e :
  SpecFloat.bounded prec emax m e = true ->
  binary_round_aux prec emax s (Zpos m) e loc_Exact = S754_finite s m e.
Proof.
  intros B. destruct (bounded_facts m e B) as [Hc [He _]].
  unfold binary_round_aux, shr_fexp. cbn [Zdigits2 shr_record_of_loc].
  rewrite Hc, Z.sub_diag. cbn [shr shr_m loc_of_shr_record round_nearest_even Zdigits2].
  rewrite Hc, Z.sub_diag. cbn [shr shr_m].
  apply Z.leb_le in He. now rewrite He.
Qed.

Lemma binary_round_canonical s m e z ez :
  SpecFloat.bounded prec emax m e = true ->
  Zpos z * 2 ^ (ez + 1074) = Zpos m * 2 ^ (e + 1074) -> -1074 <= ez ->
  binary_round prec emax s z ez = S754_finite s m e.
Proof.
  intros B H Hez. destruct (bounded_facts m e B) as [Hc [He Hemin]].
  destruct (Z_le_gt_dec ez e) as [Hle|Hgt].
  - (* the given mantissa is m shifted left by e - ez *)
    assert (Hz : Zpos z = Zpos m * 2 ^ (e - ez)).
    { apply (Z.mul_reg_r _ _ (2 ^ (ez + 1074))); [apply Z.pow_nonzero; lia|].
      rewrite H, <- Z.mul_assoc, <- Z.pow_add_r by lia. do 2 f_equal. lia. }
    apply shifted_eq in Hz; [|lia]. subst z.
    set (n := Z.to_nat (e - ez)) in *.
    assert (Hn : Z.of_nat n = e - ez) by (unfold n; lia).
    assert (Hf : fexp prec emax (Zpos (digits2_pos (Nat.iter n xO m)) + ez) = e).
    { rewrite shl_nat_digits, Hn, <- Hc. f_equal. lia. }
    unfold binary_round. rewrite Hf. unfold shl_align.
    destruct (e - ez) as [|k|k] eqn:Ek; try lia.
    + assert (n = 0%nat) by lia. replace ez with e in * by lia.
      rewrite H0. cbn [Nat.iter]. now apply binary_round_aux_canonical.
    + unfold binary_round_aux, shr_fexp. cbn [Zdigits2 shr_record_of_loc].
      rewrite Hf, Ek. cbn [shr]. rewrite iter_pos_nat.
      replace (Pos.to_nat k) with n by lia. rewrite shr_nat_exact.
      cbn [shr_m loc_of_shr_record round_nearest_even Zdigits2].
      replace (ez + Zpos k) with e by lia.
      rewrite Hc, Z.sub_diag. cbn [shr shr_m].
      apply Z.leb_le in He. now rewrite He.
  - (* m is the given mantissa shifted left by ez - e *)
    assert (Hm : Zpos m = Zpos z * 2 ^ (ez - e)).
    { apply (Z.mul_reg_r _ _ (2 ^ (e + 1074))); [apply Z.pow_nonzero; lia|].
      rewrite <- H, <- Z.mul_assoc, <- Z.pow_add_r by lia. do 2 f_equal. lia. }
    apply shifted_eq in Hm; [|lia].
    set (n := Z.to_nat (ez - e)) in *.
    assert (Hn : Z.of_nat n = ez - e) by (unfold n; lia).
    assert (Hf : fexp prec emax (Zpos (digits2_pos z) + ez) = e).
    { rewrite <- Hc, Hm, shl_nat_digits, Hn. f_equal. lia. }
    unfold binary_round. rewrite Hf. unfold shl_align.
    destruct (e - ez) as [|k|k] eqn:Ek; try lia.
    rewrite Pos_iter_nat. replace (Pos.to_nat k) with n by lia.
    rewrite <- Hm. now apply binary_round_aux_canonical.
Qed.

Lemma binary_normalize_canonical s m e Z ez b :
  SpecFloat.bounded prec emax m e = true ->
  Z * 2 ^ (ez + 1074) = cond_Zopp s (Zpos m) * 2 ^ (e + 1074) -> -1074 <= ez ->
  binary_normalize prec emax Z ez b = S754_finite s m e.
Proof.
  intros B H Hez. destruct (bounded_facts m e B) as [_ [_ Hemin]].
  assert (P1 : 0 < 2 ^ (ez + 1074)) by (apply Z.pow_pos_nonneg; lia).
  assert (P2 : 0 < 2 ^ (e + 1074)) by (apply Z.pow_pos_nonneg; lia).
  destruct Z as [|z|z], s; cbn [cond_Zopp binary_normalize] in *; try nia.
  - apply binary_round_canonical; assumption.
  - apply binary_round_canonical; try assumption.
    rewrite <- !Pos2Z.opp_pos in H. lia.
Qed.


Lemma shl_align_value mx ex ez : ez <= ex ->
  Zpos (fst (shl_align mx ex ez)) = Zpos mx * 2 ^ (ex - ez).
Proof.
  intros H. unfold shl_align.
  destruct (ez - ex) as [|d|d] eqn:E; try lia; cbn [fst].
  - replace (ex - ez) with 0 by lia. cbn. lia.
  - rewrite Pos_iter_nat, shl_nat_value. f_equal. f_equal. lia.
Qed.

Lemma aligned_value s m e ez : ez <= e -> -1074 <= ez ->
  cond_Zopp s (Zpos (fst (shl_align m e ez))) * 2 ^ (ez + 1074)
  = scaled_SF (S754_finite s m e).
Proof.
  intros H1 H2. rewrite shl_align_value by exact H1. cbn [scaled_SF].
  replace (e + 1074) with ((e - ez) + (ez + 1074)) by lia.
  rewrite (Z.pow_add_r 2 (e - ez) (ez + 1074)) by lia.
  destruct s; cbn [cond_Zopp]; ring.
Qed.

(** Addition and subtraction are exact when the exact result is a
    float. *)
Lemma SFadd_exact sx mx ex sy my ey sz mz ez :
  SpecFloat.bounded prec emax mx ex = true ->
  SpecFloat.bounded prec emax my ey = true ->
  SpecFloat.bounded prec emax mz ez = true ->
  scaled_SF (S754_finite sz mz ez)
  = scaled_SF (S754_finite sx mx ex) + scaled_SF (S754_finite sy my ey) ->
  SFadd prec emax (S754_finite sx mx ex) (S754_finite sy my ey)
  = S754_finite sz mz ez.
Proof.
  intros Bx By Bz H.
  destruct (bounded_facts _ _ Bx) as [_ [_ Hx]].
  destruct (bounded_facts _ _ By) as [_ [_ Hy]].
  cbn [SFadd]. apply binary_normalize_canonical; [exact Bz| |lia].
  rewrite Z.mul_add_distr_r, !aligned_value by lia. symmetry. exact H.
Qed.

Lemma SFsub_exact sx mx ex sy my ey sz mz ez :
  SpecFloat.bounded prec emax mx ex = true ->
  SpecFloat.bounded prec emax my ey = true ->
  SpecFloat.bounded prec emax mz ez = true ->
  scaled_SF (S754_finite sz mz ez)
  = scaled_SF (S754_finite sx mx ex) - scaled_SF (S754_finite sy my ey) ->
  SFsub prec emax (S754_finite sx mx ex) (S754_finite sy my ey)
  = S754_finite sz mz ez.
Proof.
  intros Bx By Bz H.
  destruct (bounded_facts _ _ Bx) as [_ [_ Hx]].
  destruct (bounded_facts _ _ By) as [_ [_ Hy]].
  cbn [SFsub]. apply binary_normalize_canonical; [exact Bz| |lia].
  rewrite Z.mul_sub_distr_r, !aligned_value by lia. symmetry. exact H.
Qed.

Lemma SFadd_cancels sx mx ex sy my ey :
  SpecFloat.bounded prec emax mx ex = true ->
  SpecFloat.bounded prec emax my ey = true ->
  scaled_SF (S754_finite sx mx ex) + scaled_SF (S754_finite sy my ey) = 0 ->
  SFadd prec emax (S754_finite sx mx ex) (S754_finite sy my ey)
  = S754_zero false.
Proof.
  intros Bx By H.
  destruct (bounded_facts _ _ Bx) as [_ [_ Hx]].
  destruct (bounded_facts _ _ By) as [_ [_ Hy]].
  cbn [SFadd].
  match goal with |- binary_normalize _ _ ?Z _ _ = _ =>
    assert (E : Z = 0); [|now rewrite E] end.
  assert (P : 0 < 2 ^ (Z.min ex ey + 1074)) by (apply Z.pow_pos_nonneg; lia).
  apply (Z.mul_reg_r _ _ (2 ^ (Z.min ex ey + 1074))); [lia|].
  rewrite Z.mul_add_distr_r, !aligned_value by lia. rewrite H. lia.
Qed.

(** A finite float is determined by its value. *)
Lemma scaled_SF_inj s1 m1 e1 s2 m2 e2 :
  SpecFloat.bounded prec emax m1 e1 = true ->
  SpecFloat.bounded prec emax m2 e2 = true ->
  scaled_SF (S754_finite s1 m1 e1) = scaled_SF (S754_finite s2 m2 e2) ->
  S754_finite s1 m1 e1 = S754_finite s2 m2 e2.
Proof.
  intros B1 B2 H.
  destruct (bounded_facts _ _ B1) as [_ [_ H1]].
  rewrite <- (binary_normalize_canonical s1 m1 e1 (cond_Zopp s1 (Zpos m1)) e1 false)
    by (try assumption; reflexivity).
  apply binary_normalize_canonical; assumption.
Qed.

Lemma scaled_SF_nonzero s m e :
  SpecFloat.bounded prec emax m e = true -> scaled_SF (S754_finite s m e) <> 0.
Proof.
  intros B. destruct (bounded_facts _ _ B) as [_ [_ H]]. cbn [scaled_SF].
  assert (0 < 2 ^ (e + 1074)) by (apply Z.pow_pos_nonneg; lia).
  destruct s; cbn [cond_Zopp]; nia.
Qed.

End Exactness.

Section RoundTrip.
Local Open Scope float_scope.

Lemma finite_valid x s m e :
  Prim2SF x = S754_finite s m e -> SpecFloat.bounded prec emax m e = true.
Proof. intros H. pose proof (Prim2SF_valid x) as V. now rewrite H in V. Qed.

(** When the real sum [c + k] is a float, [(c + k) - k] is [c]. *)
Lemma add_sub_exact (c k s : float) :
  is_finite c = true -> is_finite s = true ->
  (exists sk mk ek, Prim2SF k = S754_finite sk mk ek) ->
  scaled s = (scaled c + scaled k)%Z ->
  ((c + k) - k =? c) = true /\ (c <> (-0)%float -> (c + k) - k = c).
Proof.
  intros Fc Fs (sk & mk & ek & Ek) H.
  pose proof (finite_valid k _ _ _ Ek) as Bk.
  assert (R : forall r, Prim2SF r = Prim2SF c -> (r =? c) = true /\ r = c).
  { intros r E. apply Prim2SF_inj in E. subst r. split; [|reflexivity].
    rewrite FloatAxioms.eqb_spec. unfold SFeqb. unfold is_finite in Fc.
    destruct (Prim2SF c) eqn:Ec; try discriminate; rewrite SFcompare_refl; 
      try reflexivity; discriminate. }
  unfold scaled, is_finite in *. rewrite Ek in H.
  destruct (Prim2SF c) as [sc| | |sc mc ec] eqn:Ec; try discriminate.
  - (* c is a zero: c + k is k and k - k is +0 *)
    assert (E1 : Prim2SF (c + k) = Prim2SF k).
    { rewrite add_spec, Ec, Ek. reflexivity. }
    apply Prim2SF_inj in E1. rewrite E1.
    assert (E2 : Prim2SF (k - k) = S754_zero false).
    { rewrite sub_spec, Ek. cbn [SF64sub SFsub].
      match goal with |- binary_normalize _ _ ?Z _ _ = _ =>
        replace Z with 0%Z by lia end. reflexivity. }
    split.
    + rewrite FloatAxioms.eqb_spec, E2, Ec. now destruct sc.
    + intros Hc. apply Prim2SF_inj. rewrite E2, Ec. destruct sc; [|reflexivity].
      exfalso. apply Hc. apply Prim2SF_inj. rewrite Ec. reflexivity.
  - pose proof (finite_valid c _ _ _ Ec) as Bc.
    assert (Rc : forall r, Prim2SF r = S754_finite sc mc ec ->
               (r =? c) = true /\ (c <> (-0)%float -> r = c)).
    { intros r E. destruct (R r E). auto. }
    apply Rc. rewrite sub_spec, add_spec, Ec, Ek. unfold SF64sub, SF64add.
    destruct (Prim2SF s) as [ss| | |ss ms es] eqn:Es; try discriminate.
    + (* the sum is zero: c is -k *)
      cbn [scaled_SF] in H.
      rewrite (SFadd_cancels _ _ _ _ _ _ Bc Bk) by (cbn [scaled_SF]; lia).
      cbn [SFsub]. 
      apply (scaled_SF_inj (negb sk) mk ek sc mc ec Bk Bc).
      cbn [scaled_SF] in *. destruct sk; cbn [negb cond_Zopp] in *; lia.
    + pose proof (finite_valid s _ _ _ Es) as Bs.
      rewrite (SFadd_exact _ _ _ _ _ _ ss ms es Bc Bk Bs H).
      apply SFsub_exact; try assumption. lia.
Qed.


Local Open Scope Z_scope.

Lemma digits2_pos_bounds p :
  2 ^ (Zpos (digits2_pos p) - 1) <= Zpos p < 2 ^ Zpos (digits2_pos p).
Proof.
  induction p as [p IH|p IH|]; cbn [digits2_pos]; rewrite ?Pos2Z.inj_succ.
  - replace (Z.succ (Zpos (digits2_pos p)) - 1) with (Z.succ (Zpos (digits2_pos p) - 1)) by lia.
    rewrite !Z.pow_succ_r by lia. lia.
  - replace (Z.succ (Zpos (digits2_pos p)) - 1) with (Z.succ (Zpos (digits2_pos p) - 1)) by lia.
    rewrite !Z.pow_succ_r by lia. lia.
  - cbn. lia.
Qed.

Lemma digits2_pos_le_53 p : Zpos p < 2 ^ 53 -> Zpos (digits2_pos p) <= 53.
Proof.
  intros H. destruct (digits2_pos_bounds p) as [L _].
  destruct (Z_le_gt_dec (Zpos (digits2_pos p)) 53) as [|G]; [assumption|].
  exfalso. assert (2 ^ 53 <= 2 ^ (Zpos (digits2_pos p) - 1))
    by (apply Z.pow_le_mono_r; lia). lia.
Qed.

(** An integer of at most 53 bits, scaled by a power of two in the
    range of the exponents, is the value of a float. *)
Lemma representable a j :
  a <> 0 -> Z.abs a < 2 ^ 53 -> 0 <= j <= 2045 ->
  exists x : float, is_finite x = true /\ scaled x = a * 2 ^ j.
Proof.
  intros Ha Hb Hj.
  set (p := Z.to_pos (Z.abs a)).
  assert (Hp : Zpos p = Z.abs a) by (unfold p; lia).
  assert (Hd : Zpos (digits2_pos p) <= 53) by (apply digits2_pos_le_53; lia).
  assert (Hd0 : 0 < Zpos (digits2_pos p)) by lia.
  set (fe := fexp prec emax (Zpos (digits2_pos p) + (j - 1074))).
  assert (Hfe : -1074 <= fe <= j - 1074).
  { unfold fe, fexp, emin, prec, emax. lia. }
  set (n := Z.to_nat (j - 1074 - fe)).
  set (m := Nat.iter n xO p).
  assert (B : SpecFloat.bounded prec emax m fe = true).
  { unfold SpecFloat.bounded, canonical_mantissa. apply andb_true_intro. split.
    - apply Z.eqb_eq. unfold m. rewrite shl_nat_digits.
      replace (Zpos (digits2_pos p) + Z.of_nat n + fe)
        with (Zpos (digits2_pos p) + (j - 1074)) by (unfold n; lia).
      reflexivity.
    - apply Z.leb_le. unfold emax, prec. lia. }
  exists (SF2Prim (S754_finite (a <? 0) m fe)).
  unfold is_finite, scaled. rewrite Prim2SF_SF2Prim by exact B.
  split; [reflexivity|]. cbn [scaled_SF]. unfold m. rewrite shl_nat_value.
  replace (Z.of_nat n) with (j - 1074 - fe) by (unfold n; lia).
  replace j with (j - 1074 - fe + (fe + 1074)) at 2 by lia.
  rewrite (Z.pow_add_r 2 (j - 1074 - fe) (fe + 1074)), Hp by lia.
  destruct (Z.ltb_spec a 0); cbn [cond_Zopp];
    [rewrite Z.abs_neq by lia|rewrite Z.abs_eq by lia]; ring.
Qed.


Lemma scaled_273_15 : scaled 273.15%float = 2402652809016115 * 2 ^ 1031.
Proof. vm_compute. reflexivity. Qed.

Lemma sum_of_multiple_is_a_float (c : float) :
  is_finite c = true -> (2 ^ 1031 | scaled c) ->
  Z.abs (scaled c + scaled 273.15%float) < 2 ^ 1084 ->
  exists s : float, is_finite s = true /\
                    scaled s = scaled c + scaled 273.15%float.
Proof.
  intros Fc [n Hn] Hb. rewrite scaled_273_15 in *. rewrite Hn in *.
  set (a := n + 2402652809016115) in *.
  replace (n * 2 ^ 1031 + 2402652809016115 * 2 ^ 1031) with (a * 2 ^ 1031) in *
    by (unfold a; ring).
  destruct (Z.eq_dec a 0) as [->|Ha].
  - exists 0%float. split; reflexivity.
  - apply representable; [exact Ha| |lia].
    assert (P : 0 < 2 ^ 1031) by (apply Z.pow_pos_nonneg; lia).
    replace (2 ^ 1084) with (2 ^ 53 * 2 ^ 1031) in Hb
      by (rewrite <- Z.pow_add_r by lia; reflexivity).
    rewrite Z.abs_mul, (Z.abs_eq (2 ^ 1031)) in Hb by lia.
    apply (Z.mul_lt_mono_pos_r (2 ^ 1031)); assumption.
Qed.

End RoundTrip.

(** ** The loop combinator *)

Section While.
Context {S : Type} (cond : S -> bool) (body : S -> outcome S).

Lemma while_fuel_mono fuel : forall s r,
  while_ cond body fuel s = Some r ->
  forall fuel', (fuel <= fuel')%nat -> while_ cond body fuel' s = Some r.
Proof.
  induction fuel as [|fuel IH]; intros s r H fuel' Hle.
  - cbn in H. destruct (cond s) eqn:C; [discriminate|].
    destruct fuel'; cbn; rewrite C; exact H.
  - destruct fuel' as [|fuel']; [lia|]. cbn in H |- *.
    destruct (cond s); [|exact H].
    destruct (body s); try exact H. apply IH; [exact H|lia].
Qed.

(** A measure that is positive while the condition holds and that
    every pass decreases bounds the fuel the loop needs. *)
Lemma while_terminates (mu : S -> nat) :
  (forall s, cond s = true -> (0 < mu s)%nat) ->
  (forall s s', cond s = true -> body s = Ok s' -> (mu s' < mu s)%nat) ->
  forall fuel s, (mu s <= fuel)%nat -> while_ cond body fuel s <> None.
Proof.
  intros Hpos Hmu. induction fuel as [|fuel IH]; intros s Hle; cbn.
  - destruct (cond s) eqn:C; [|discriminate].
    specialize (Hpos _ C). lia.
  - destruct (cond s) eqn:C; [|discriminate].
    destruct (body s) eqn:B; try discriminate.
    apply IH. specialize (Hmu _ _ C B). lia.
Qed.

Lemma while_invariant (I : S -> Prop) :
  (forall s s', I s -> cond s = true -> body s = Ok s' -> I s') ->
  forall fuel s r, I s -> while_ cond body fuel s = Some (Ok r) ->
  I r /\ cond r = false.
Proof.
  intros Hstep. induction fuel as [|fuel IH]; intros s r Hs H; cbn in H.
  - destruct (cond s) eqn:C; [discriminate|]. injection H as <-. auto.
  - destruct (cond s) eqn:C.
    + destruct (body s) as [s'| |] eqn:B; try discriminate.
      apply (IH s'); [|exact H]. now apply (Hstep s).
    + injection H as <-. auto.
Qed.

End While.

(** ** [THTE] *)

Section THTEGeneric.
Context {T : Type} {A : Arith T}.
Hypothesis lit900 : eq0 (lit 900.0%py) = false.
Hypothesis lit1004 : eq0 (lit 1004%py) = false.

(** [THTE] raises ZeroDivisionError on a zero divisor between Python
    floats, and otherwise returns a numpy scalar: it never raises
    another exception and never leaves the floats. *)
Lemma THTE_unfold p t td :
  THTE p t td = if THTE_raises p t td then Raise ZeroDivisionError
                else Ok (Num Np (THTE_value (val p) (val t) (val td))).
Proof.
  destruct p as [kp p], t as [kt t], td as [ktd td].
  unfold THTE_raises, THTE_value, is_py, THTE.
  destruct kp, kt, ktd; cbn; rewrite ?lit900, ?lit1004; cbn;
  repeat match goal with |- context [eq0 ?x] => destruct (eq0 x); cbn end;
  reflexivity.
Qed.


End THTEGeneric.

Lemma THTE_binary64 (L : libm) (p t td : num float) :
  THTE p t td = if THTE_raises p t td then Raise ZeroDivisionError
                else Ok (np (THTE_value (val p) (val t) (val td))).
Proof. apply THTE_unfold; reflexivity. Qed.

Lemma THTE_Ok_inv (L : libm) (p t td v : num float) :
  THTE p t td = Ok v ->
  THTE_raises p t td = false /\ v = np (THTE_value (val p) (val t) (val td)).
Proof.
  rewrite THTE_binary64. destruct (THTE_raises p t td); [discriminate|].
  intros H. injection H as <-. auto.
Qed.

Lemma THTE_raises_np {T : Type} {A : Arith T} (p t td : num T) :
  knd p = Np -> knd t = Np -> knd td = Np -> THTE_raises p t td = false.
Proof.
  destruct p, t, td. cbn. intros -> -> ->. reflexivity.
Qed.

Lemma join_np_r k : join k Np = Np.
Proof. now destruct k. Qed.

Lemma div_num_np_r {T : Type} {A : Arith T} (x y : num T) :
  knd y = Np -> div_num x y = Ok (Num Np (div (val x) (val y))).
Proof. unfold div_num. intros ->. now destruct (knd x). Qed.

(** ** The loop of [WBT] *)

Section Solver.
Context (L : libm).
Local Open Scope float_scope.

(** One pass of the loop, with the calls of [THTE] resolved: the
    outcome, and the state the pass leaves.  An exception comes from
    the first call of [THTE] or from the second. *)
Lemma WBT_pass_eq pres tht st :
  WBT_pass L pres tht st =
  let g := tgnu st in
  let g1 := add_num g (py (Q2F 1.0)) in
  let at_call n := {| tgnu := g; iterN := S (iterN st); convrg := convrg st;
                      calls := n + calls st |} in
  if THTE_raises pres g g then (Raise ZeroDivisionError, at_call 1%nat)
  else if THTE_raises pres g1 g1 then (Raise ZeroDivisionError, at_call 2%nat)
  else if 0 <? tenu_of L pres g1 - tenu_of L pres g then
    (Ok tt,
     {| tgnu := Num Np (val g + cor_of L pres tht g);
        iterN := S (iterN st);
        convrg := if abs (cor_of L pres tht g) <? Q2F epsi then true
                  else convrg st;
        calls := 2 + calls st |})
  else (Ok tt, at_call 2%nat).
Proof.
  unfold WBT_pass, call_THTE, sbind, incr_iterN, tick, read, expr, skip,
    set_tgnu, set_convrg.
  cbn [tgnu iterN convrg calls]. cbv zeta.
  change (py_add (ret_num (tgnu st)) (pyfloat 1.0))
    with (Ok (A := num float) (add_num (tgnu st) (py (Q2F 1.0)))).
  cbv beta iota.
  rewrite !THTE_binary64.
  destruct (THTE_raises pres (tgnu st) (tgnu st)); [reflexivity|].
  destruct (THTE_raises pres _ _); [reflexivity|].
  unfold gt_lit. cbn [py_sub lift2 bind ret_num sub_num val sub binary64 np knd].
  change (Q2F 0) with 0.
  unfold tenu_of, cor_of. cbn [val np].
  match goal with |- context [0 <? ?d] => destruct (0 <? d) end; [|reflexivity].
  cbn [py_div py_sub py_add lift2 bind ret_num sub_num val sub binary64 np knd].
  rewrite div_num_np_r by reflexivity.
  cbn [bind]. unfold lt_lit, np_abs, add_num, sub_num.
  cbn [val knd tgnu iterN convrg calls np py sub add div binary64].
  rewrite join_np_r.
  destruct (abs _ <? _); reflexivity.
Qed.

(** The same for a pass that returns. *)
Lemma WBT_body_eq pres tht st :
  WBT_body L pres tht st =
  let g := tgnu st in
  let g1 := add_num g (py (Q2F 1.0)) in
  if THTE_raises pres g g || THTE_raises pres g1 g1 then Raise ZeroDivisionError
  else if 0 <? tenu_of L pres g1 - tenu_of L pres g then
    Ok {| tgnu := Num Np (val g + cor_of L pres tht g);
          iterN := S (iterN st);
          convrg := if abs (cor_of L pres tht g) <? Q2F epsi then true
                    else convrg st;
          calls := calls st + 2 |}
  else
    Ok {| tgnu := g; iterN := S (iterN st); convrg := convrg st;
          calls := calls st + 2 |}.
Proof.
  unfold WBT_body. rewrite WBT_pass_eq. cbv zeta.
  destruct (THTE_raises pres (tgnu st) (tgnu st)); [reflexivity|].
  destruct (THTE_raises pres _ _); [reflexivity|]. cbn [orb].
  destruct (0 <? _); unfold returned; cbn [fst snd bind];
    do 2 f_equal; lia.
Qed.

Lemma WBT_body_counts pres tht st st' :
  WBT_body L pres tht st = Ok st' ->
  iterN st' = S (iterN st) /\ calls st' = (calls st + 2)%nat.
Proof.
  rewrite WBT_body_eq. cbv zeta.
  destruct (_ || _); [discriminate|].
  destruct (0 <? _); intros H; injection H as <-; cbn; auto.
Qed.

Lemma WBT_body_no_complex pres tht st : WBT_body L pres tht st <> Complex.
Proof.
  rewrite WBT_body_eq. cbv zeta.
  destruct (_ || _); [discriminate|]. destruct (0 <? _); discriminate.
Qed.

Lemma WBT_init_eq pres tht :
  WBT_init L pres tht =
  match WBT_tg L pres tht with
  | Raise e => Raise e
  | _ => Ok (WBT_from (sub_num tht (py (Q2F 273.15))))
  end.
Proof. unfold WBT_init. destruct (WBT_tg L pres tht); reflexivity. Qed.

Lemma counted_step pres tht st st' :
  counted st -> WBT_cond st = true -> WBT_body L pres tht st = Ok st' ->
  counted st'.
Proof.
  unfold counted, WBT_cond. intros [H1 H2] C B.
  apply WBT_body_counts in B. destruct B as [-> ->].
  apply andb_prop in C. destruct C as [C _]. apply Nat.ltb_lt in C. lia.
Qed.

(** [100 - iterN] is the measure of the loop. *)
Lemma WBT_while_total pres tht fuel st :
  (100 - iterN st <= fuel)%nat ->
  while_ WBT_cond (WBT_body L pres tht) fuel st <> None.
Proof.
  apply (while_terminates WBT_cond (WBT_body L pres tht)
           (fun s => 100 - iterN s)%nat).
  - intros s C. unfold WBT_cond in C. apply andb_prop in C.
    destruct C as [C _]. apply Nat.ltb_lt in C. lia.
  - intros s s' C B. apply WBT_body_counts in B. destruct B as [-> _].
    unfold WBT_cond in C. apply andb_prop in C.
    destruct C as [C _]. apply Nat.ltb_lt in C. lia.
Qed.

Lemma while_no_complex pres tht fuel : forall st,
  while_ WBT_cond (WBT_body L pres tht) fuel st <> Some Complex.
Proof.
  induction fuel as [|fuel IH]; intros st; cbn [while_].
  - destruct (WBT_cond st); discriminate.
  - destruct (WBT_cond st); [|discriminate].
    destruct (WBT_body L pres tht st) eqn:B; try discriminate.
    + apply IH.
    + now apply WBT_body_no_complex in B.
Qed.

Lemma WBT_loop_total pres tht fuel :
  (100 <= fuel)%nat ->
  exists r, WBT_loop L 100 pres tht = Some r /\ WBT_loop L fuel pres tht = Some r.
Proof.
  intros Hf. unfold WBT_loop.
  destruct (WBT_init L pres tht) as [st0| |] eqn:I; eauto.
  destruct (while_ WBT_cond (WBT_body L pres tht) 100 st0) as [r|] eqn:W.
  - exists r. split; [reflexivity|]. eapply while_fuel_mono; eauto.
  - exfalso. revert W. apply WBT_while_total.
    rewrite WBT_init_eq in I. destruct (WBT_tg L pres tht); try discriminate;
      injection I as <-; cbn; lia.
Qed.

Lemma WBT_loop_counted pres tht fuel st :
  WBT_loop L fuel pres tht = Some (Ok st) -> counted st /\ WBT_cond st = false.
Proof.
  unfold WBT_loop.
  destruct (WBT_init L pres tht) as [st0| |] eqn:I; try discriminate.
  apply while_invariant.
  - intros s s'. apply counted_step.
  - rewrite WBT_init_eq in I. destruct (WBT_tg L pres tht); try discriminate;
      injection I as <-; unfold counted; cbn; lia.
Qed.



End Solver.




(** A run of five passes and ten calls. *)
Lemma WBT_five_passes :
  while_st WBT_cond (WBT_pass libm_ref (py 1000) (py 300)) 100
    (WBT_from (py 26.850000000000023))
  = Some (Ok tt, {| tgnu := np 8.0561801931365675; iterN := 5;
                    convrg := true; calls := 10 |}).
Proof. vm_compute. reflexivity. Qed.

(** C3.  A pass of the loop in which both calls of [THTE] return and
    [denom = tenup - tenu] is not positive ([denom > 0] is false: zero,
    negative or nan) leaves [tgnu] and the flag [convrg] as they were
    and advances [iterN]. *)
Theorem WBT_skips_nonpositive_slope (L : libm) (pres tht : num float)
    (st : wbt_state) (tenu tenup : num float) :
  THTE pres (tgnu st) (tgnu st) = Ok tenu ->
  THTE pres (add_num (tgnu st) (py 1)) (add_num (tgnu st) (py 1)) = Ok tenup ->
  gt_lit (sub_num tenup tenu) 0 = false ->
  exists st', WBT_body L pres tht st = Ok st' /\
    tgnu st' = tgnu st /\ convrg st' = convrg st /\ iterN st' = S (iterN st).
Proof.
  intros H1 H2 H3. eexists. split.
  - unfold WBT_body. cbn. rewrite H1. cbn.
    change (Q2F 1.0) with 1%float. unfold py in H2. rewrite H2. cbn.
    rewrite H3. reflexivity.
  - cbn. auto.
Qed.

Lemma WBT_skips_nonpositive_slope_witness :
  exists st',
    WBT_body libm_ref (py 1000) (np 386.72910008997053)
      (WBT_from (np 113.57910008997055)) = Ok st' /\
    tgnu st' = np 113.57910008997055 /\ convrg st' = false /\ iterN st' = 1%nat.
Proof.
  eapply (WBT_skips_nonpositive_slope libm_ref (py 1000) (np 386.72910008997053)
            (WBT_from (np 113.57910008997055))
            (np 3333.3229442634424) (np 1824.9568294372821)).
  - vm_compute. reflexivity.
  - vm_compute. reflexivity.
  - vm_compute. reflexivity.
Defined.

Section Stuck.
Context (L : libm).
Local Open Scope float_scope.

(** A pass that leaves the guess as it was is repeated until the
    counter ends the loop. *)
Lemma stuck_body pres tht st :
  stuck L pres (tgnu st) ->
  WBT_body L pres tht st =
  Ok {| tgnu := tgnu st; iterN := S (iterN st); convrg := convrg st;
        calls := calls st + 2 |}.
Proof.
  intros [H1 H2]. rewrite WBT_body_eq. cbv zeta. rewrite H1, H2. reflexivity.
Qed.

Lemma stuck_loop pres tht g : stuck L pres g ->
  forall n i c, (i + n = 100)%nat ->
  while_ WBT_cond (WBT_body L pres tht) n
    {| tgnu := g; iterN := i; convrg := false; calls := c |} =
  Some (Ok {| tgnu := g; iterN := 100; convrg := false; calls := c + 2 * n |}).
Proof.
  intros H. induction n as [|n IH]; intros i c Hi; cbn [while_].
  - unfold WBT_cond. cbn. replace i with 100%nat by lia. cbn.
    now rewrite Nat.add_0_r.
  - unfold WBT_cond at 1. cbn [iterN convrg].
    replace (i <? 100)%nat with true by (symmetry; apply Nat.ltb_lt; lia).
    cbn [andb negb]. rewrite stuck_body by exact H.
    cbn [tgnu iterN convrg calls].
    rewrite IH by lia. do 3 f_equal. lia.
Qed.

Lemma stuck_WBT pres tht :
  (forall e, WBT_tg L pres tht <> Raise e) ->
  stuck L pres (sub_num tht (py (Q2F 273.15))) ->
  WBT_loop L 100 pres tht =
    Some (Ok {| tgnu := sub_num tht (py (Q2F 273.15)); iterN := 100;
                convrg := false; calls := 200 |}) /\
  WBT L pres tht = Some (Ok np_nan).
Proof.
  intros Htg Hs.
  assert (E : WBT_loop L 100 pres tht =
    Some (Ok {| tgnu := sub_num tht (py (Q2F 273.15)); iterN := 100;
                convrg := false; calls := 200 |})).
  { unfold WBT_loop. rewrite WBT_init_eq.
    destruct (WBT_tg L pres tht) eqn:E; [| now elim (Htg e) |];
      unfold WBT_from; now rewrite (stuck_loop _ _ _ Hs 100 0 0). }
  split; [exact E|]. unfold WBT, WBT_fuel. now rewrite E.
Qed.

(** On numpy scalars the guess [tg] does not raise. *)
Lemma WBT_tg_np p t : exists v, WBT_tg L (np p) (np t) = Ok v.
Proof.
  unfold WBT_tg. destruct (gt_lit (np t) 270); vm_compute; eauto.
Qed.

(** On numpy scalars, a nan of [THTE] at the first guess is all it
    takes. *)
Lemma WBT_nan_at_seed_np p tht :
  is_nan (THTE_value p (tht - 273.15) (tht - 273.15)) = true ->
  WBT L (np p) (np tht) = Some (Ok np_nan).
Proof.
  intros Hnan. apply stuck_WBT.
  - intros e. destruct (WBT_tg_np p tht) as [v ->]. discriminate.
  - split.
    + now rewrite !THTE_raises_np.
    + apply nan_slope. exact Hnan.
Qed.

End Stuck.

(** C10, amended.  When [THTE] is nan at the first guess
    [tht - 273.15], and neither the guess [tg] nor [THTE] one degree
    above raises (they never do on numpy scalars), [WBT] never updates
    the guess: it makes all 100 passes, 200 calls of [THTE], and
    returns the nan sentinel. *)
Theorem WBT_nan_at_seed_never_updates (L : libm) (pres tht v1 v2 : num float) :
  let g := sub_num tht (py 273.15) in
  (forall e, WBT_tg L pres tht <> Raise e) ->
  THTE pres g g = Ok v1 ->
  is_nan (val v1) = true ->
  THTE pres (add_num g (py 1)) (add_num g (py 1)) = Ok v2 ->
  WBT_loop L 100 pres tht =
    Some (Ok {| tgnu := g; iterN := 100; convrg := false; calls := 200 |}) /\
  WBT L pres tht = Some (Ok np_nan).
Proof.
  intros g Htg H1 Hnan H2.
  apply (stuck_WBT L pres tht Htg).
  apply THTE_Ok_inv in H1, H2. destruct H1 as [R1 ->], H2 as [R2 ->].
  split.
  - change (Q2F 1.0) with 1%float. change (Q2F 273.15) with 273.15%float.
    fold g. now rewrite R1, R2.
  - apply nan_slope. exact Hnan.
Qed.

Lemma WBT_nan_at_seed_never_updates_witness :
  WBT_loop libm_ref 100 (py infinity) (py 300) =
    Some (Ok {| tgnu := sub_num (A := binary64 libm_ref) (py 300) (py 273.15);
                iterN := 100; convrg := false; calls := 200 |}) /\
  WBT libm_ref (py infinity) (py 300) = Some (Ok np_nan).
Proof.
  apply (WBT_nan_at_seed_never_updates libm_ref (py infinity) (py 300)
           (np nan) (np nan)).
  - intros e. vm_compute. discriminate.
  - vm_compute. reflexivity.
  - reflexivity.
  - vm_compute. reflexivity.
Defined.

(** C10 as stated fails: with [pres = nan] and [tht = -1.0], [THTE] is
    nan at the first guess, -274.15, and the call one degree above, at
    -273.15, raises ZeroDivisionError. *)
Lemma WBT_nan_seed_can_raise :
  sub_num (A := binary64 libm_ref) (py (-1)) (py 273.15)
    = py (-274.14999999999998) /\
  THTE (A := binary64 libm_ref) (py nan)
    (py (-274.14999999999998)) (py (-274.14999999999998)) = Ok (np nan) /\
  WBT libm_ref (py nan) (py (-1)) = Some (Raise ZeroDivisionError).
Proof. vm_compute. auto. Qed.

Section NoRaise.
Context (L : libm).
Local Open Scope float_scope.

Lemma np_loop_no_raise p tht e fuel : forall st,
  knd (tgnu st) = Np ->
  while_ WBT_cond (WBT_body L (np p) tht) fuel st <> Some (Raise e).
Proof.
  assert (B : forall st, knd (tgnu st) = Np ->
            exists st', WBT_body L (np p) tht st = Ok st' /\ knd (tgnu st') = Np).
  { intros st K. rewrite WBT_body_eq. cbv zeta.
    rewrite !THTE_raises_np; try reflexivity; try exact K;
      try (unfold add_num; now rewrite K).
    cbn [orb]. destruct (0 <? _); eexists; split; try reflexivity; exact K. }
  induction fuel as [|fuel IH]; intros st K; cbn [while_].
  - destruct (WBT_cond st); discriminate.
  - destruct (WBT_cond st); [|discriminate].
    destruct (B st K) as [st' [-> K']]. now apply IH.
Qed.

Lemma np_WBT_no_raise p t e : WBT_loop L 100 (np p) (np t) <> Some (Raise e).
Proof.
  unfold WBT_loop. rewrite WBT_init_eq.
  destruct (WBT_tg_np L p t) as [v ->]. now apply np_loop_no_raise.
Qed.

End NoRaise.

Section Raises.
Context (L : libm).
Local Open Scope float_scope.

(** [float ** float] divides by zero only on a negative exponent. *)
Lemma py_float_pow_no_zero_division iv iw :
  (iw <? 0) = false -> py_float_pow L iv iw <> Raise ZeroDivisionError.
Proof.
  intros H. unfold py_float_pow. rewrite H.
  repeat match goal with |- context [if ?b then _ else _] => destruct b end;
    discriminate.
Qed.

(** The guess [tg] raises only OverflowError, from [val ** 1.05] or
    from [(pres/1000.) ** .2], and only on a Python float. *)
Lemma WBT_tg_raises pres tht e :
  WBT_tg L pres tht = Raise e ->
  e = OverflowError /\ is_py pres || is_py tht = true.
Proof.
  intros H. split.
  - destruct e; [exfalso|reflexivity]. revert H.
    destruct pres as [kp p], tht as [kt t]. unfold WBT_tg.
    destruct (gt_lit _ _), kp, kt;
      cbv [bind lift2 py_add py_sub py_mul py_div py_pow pyfloat ret_num
           add_num sub_num mul_num div_num pow_num join knd val
           lit add sub mul div eq0 float_pow np_power binary64];
      change (Q2F 1000.0 =? zero) with false; cbv iota;
      repeat match goal with
      | |- context [py_float_pow L ?x ?y] =>
          let P := fresh "P" in
          pose proof (py_float_pow_no_zero_division x y eq_refl) as P;
          destruct (py_float_pow L x y) as [?|[|]|]; try contradiction
      end; discriminate.
  - destruct pres as [[|] p], tht as [[|] t]; try reflexivity.
    destruct (WBT_tg_np L p t) as [v E]. unfold np in E. congruence.
Qed.

(** The first pass decides: when [THTE] raises at the first guess or
    one degree above, the loop ends there; when it does not, no later
    pass raises, for a guess that has moved is a numpy scalar and the
    pressure is not a zero Python float. *)
Lemma first_pass_raises pres tht g fuel :
  THTE_raises pres g g
  || THTE_raises pres (add_num g (py (Q2F 1.0))) (add_num g (py (Q2F 1.0)))
  = true ->
  while_ WBT_cond (WBT_body L pres tht) (S fuel) (WBT_from g)
  = Some (Raise ZeroDivisionError).
Proof.
  intros H. unfold WBT_from.
  cbn [while_ WBT_cond iterN convrg Nat.ltb Nat.leb andb negb].
  rewrite WBT_body_eq. cbv zeta. cbn [tgnu]. now rewrite H.
Qed.

Lemma later_passes_return pres tht g e :
  THTE_raises pres g g
  || THTE_raises pres (add_num g (py (Q2F 1.0))) (add_num g (py (Q2F 1.0)))
  = false ->
  forall fuel st, tgnu st = g \/ knd (tgnu st) = Np ->
  while_ WBT_cond (WBT_body L pres tht) fuel st <> Some (Raise e).
Proof.
  intros H.
  assert (P : is_py pres && (val pres =? 0) = false).
  { apply orb_false_elim in H. destruct H as [H _].
    unfold THTE_raises in H. apply orb_false_elim in H. apply H. }
  assert (B : forall st, tgnu st = g \/ knd (tgnu st) = Np ->
            exists st', WBT_body L pres tht st = Ok st' /\
                        (tgnu st' = g \/ knd (tgnu st') = Np)).
  { intros st J. rewrite WBT_body_eq. cbv zeta.
    replace (THTE_raises pres (tgnu st) (tgnu st) || _) with false.
    - destruct (0 <? _); eexists; (split; [reflexivity|]); cbn [tgnu]; auto.
    - symmetry. destruct J as [->|K]; [exact H|].
      unfold THTE_raises, is_py. cbn [knd add_num join]. rewrite K.
      cbn [join andb orb]. unfold is_py in P.
      change (eq0 (val pres)) with (val pres =? 0). now rewrite P. }
  induction fuel as [|fuel IH]; intros st J; cbn [while_].
  - destruct (WBT_cond st); discriminate.
  - destruct (WBT_cond st); [|discriminate].
    destruct (B st J) as [st' [-> J']]. now apply IH.
Qed.

End Raises.

(** C4, amended.  [WBT] always ends.  When it returns, the value is
    [tgnu + 273.15] of the final state if the flag was set within 100
    passes; otherwise the loop made all 100 passes and the value is the
    nan sentinel, never a guess.  It raises in two cases only, and each
    needs a Python float among its arguments: OverflowError, when the
    evaluation of the unused guess [tg] raises it; ZeroDivisionError,
    when [THTE] divides by a zero Python float at the first guess
    [tht - 273.15] or one degree above it.  In every other case it
    returns. *)
Theorem WBT_outcome (L : libm) (pres tht : num float) :
  let g0 := sub_num tht (py 273.15) in
  let g1 := add_num g0 (py 1) in
  match WBT L pres tht with
  | Some (Ok v) =>
      (exists st, WBT_loop L 100 pres tht = Some (Ok st) /\
         (iterN st <= 100)%nat /\
         ((convrg st = true /\ v = add_num (tgnu st) (py 273.15))
          \/ (convrg st = false /\ iterN st = 100%nat /\ v = np_nan))) /\
      (forall e, WBT_tg L pres tht <> Raise e) /\
      THTE_raises pres g0 g0 || THTE_raises pres g1 g1 = false
  | Some (Raise e) =>
      is_py pres || is_py tht = true /\
      (e = OverflowError /\ WBT_tg L pres tht = Raise OverflowError
       \/ e = ZeroDivisionError /\
          (forall e', WBT_tg L pres tht <> Raise e') /\
          THTE_raises pres g0 g0 || THTE_raises pres g1 g1 = true)
  | Some Complex | None => False
  end.
Proof.
  intros g0 g1.
  destruct (WBT_loop_total L pres tht 100 (le_n _)) as [r [E _]].
  unfold WBT, WBT_fuel. rewrite E. cbn [option_map].
  assert (R : forall e, r = Raise e -> is_py pres || is_py tht = true).
  { intros e ->. destruct pres as [[|] p], tht as [[|] t]; try reflexivity.
    exfalso. revert E. apply np_WBT_no_raise. }
  assert (T : match r with
              | Raise e =>
                  e = OverflowError /\ WBT_tg L pres tht = Raise OverflowError
                  \/ e = ZeroDivisionError /\
                     (forall e', WBT_tg L pres tht <> Raise e') /\
                     THTE_raises pres g0 g0 || THTE_raises pres g1 g1 = true
              | _ => (forall e, WBT_tg L pres tht <> Raise e) /\
                     THTE_raises pres g0 g0 || THTE_raises pres g1 g1 = false
              end).
  { revert E. unfold WBT_loop. rewrite WBT_init_eq.
    destruct (WBT_tg L pres tht) as [tg|e|] eqn:G.
    2:{ intros E; injection E as <-. left.
        destruct (WBT_tg_raises L pres tht e G) as [-> _]. auto. }
    all: change (Q2F 273.15) with 273.15%float; fold g0;
      destruct (THTE_raises pres g0 g0 || THTE_raises pres g1 g1) eqn:S;
      [ rewrite (first_pass_raises L pres tht g0 99 S);
        intros E; injection E as <-; right;
        split; [reflexivity|]; split; [discriminate|reflexivity]
      | intros E; destruct r as [st|e|];
        [ split; [discriminate|reflexivity]
        | exfalso; revert E;
          apply (later_passes_return L pres tht g0 e S); left; reflexivity
        | split; [discriminate|reflexivity] ] ]. }
  destruct r as [st|e|]; cbn [bind].
  - destruct (WBT_loop_counted L _ _ _ _ E) as [[Hi _] C].
    unfold WBT_result. destruct (convrg st) eqn:Cv; cbn.
    + split; [|exact T].
      exists st. split; [reflexivity|]. split; [exact Hi|]. left. auto.
    + split; [|exact T].
      exists st. split; [reflexivity|]. split; [exact Hi|]. right.
      split; [exact Cv|]. split; [|reflexivity].
      unfold WBT_cond in C. rewrite Cv in C. cbn [negb] in C.
      rewrite andb_true_r in C. apply Nat.ltb_ge in C. lia.
  - split; [now apply (R e)|exact T].
  - exfalso. revert E. unfold WBT_loop. rewrite WBT_init_eq.
    destruct (WBT_tg L pres tht); try discriminate; apply while_no_complex.
Qed.

(** [tht = 0.0]: the first guess is -273.15, and [THTE] divides the
    Python floats [t + 273.15] and [td + 273.15], both 0.0.  No call
    of [libm] matters. *)
Lemma WBT_raises_at_zero_kelvin (L : libm) :
  WBT L (py 1000) (py 0) = Some (Raise ZeroDivisionError).
Proof. vm_compute. reflexivity. Qed.

(** C4 as stated fails: [WBT(1000.0, 0.0)] raises ZeroDivisionError. *)
Lemma WBT_raises_ZeroDivisionError :
  WBT libm_ref (py 1000) (py 0) = Some (Raise ZeroDivisionError).
Proof. vm_compute. reflexivity. Qed.

(** The guess [tg] overflows on a large Python float: [val ** 1.05]
    raises OverflowError (here for every [pow] that returns infinity
    at that point). *)
Lemma WBT_tg_overflows (L : libm) :
  PrimFloat.is_infinity (m_pow 1e300 1.05) = true ->
  WBT L (py 1000) (py 1e300) = Some (Raise OverflowError).
Proof.
  intros H. unfold WBT, WBT_fuel, WBT_loop. rewrite WBT_init_eq.
  assert (E : WBT_tg L (py 1000) (py 1e300) = Raise OverflowError).
  { vm_compute. vm_compute in H. now rewrite H. }
  now rewrite E.
Qed.

(** C1, the code at the failing inputs.  At 1000 hPa, [THTE] of a
    saturated parcel at 30 C is 386.73 K, and [WBT] of that does not
    converge: the loop starts at [tht - 273.15] = 113.58 C, beyond the
    temperature at which the vapor pressure reaches [pres], where the
    slope is negative.  For 27 C, [THTE] is 368.42 K and [WBT] returns
    368.42 K after one pass, the value it was given. *)
Theorem WBT_misses_THTE_roundtrip :
  THTE (A := binary64 libm_ref) (py 1000) (py 30) (py 30)
    = Ok (np 386.72910008997053) /\
  WBT libm_ref (py 1000) (np 386.72910008997053) = Some (Ok np_nan) /\
  THTE (A := binary64 libm_ref) (py 1000) (py 27) (py 27)
    = Ok (np 368.42103720346176) /\
  WBT libm_ref (py 1000) (np 368.42103720346176)
    = Some (Ok (np 368.42103720346176)).
Proof. vm_compute. auto. Qed.

(** Line 104 computes the first guess [tg] and line 107 starts the
    loop from [tht] instead.  Started from [tg - 273.15], the loop
    finds the 30 C of the parcel above in five passes. *)
Lemma WBT_from_tg_converges :
  WBT_tg libm_ref (py 1000) (np 386.72910008997053)
    = Ok (np 312.68199254889026) /\
  while_ WBT_cond (WBT_body libm_ref (py 1000) (np 386.72910008997053)) 100
    (WBT_from (sub_num (A := binary64 libm_ref)
                 (np 312.68199254889026) (py 273.15))) =
  Some (Ok {| tgnu := np 30.000011175222742; iterN := 5; convrg := true;
              calls := 10 |}).
Proof. vm_compute. auto. Qed.

(** Where the first guess is below that temperature the round trip
    holds: 20 C comes back as 20.0000006 C in nine passes. *)
Lemma WBT_roundtrip_at_20C :
  THTE (A := binary64 libm_ref) (py 1000) (py 20) (py 20)
    = Ok (np 335.79630677597527) /\
  WBT_loop libm_ref 100 (py 1000) (np 335.79630677597527) =
  Some (Ok {| tgnu := np 20.000000633071942; iterN := 9; convrg := true;
              calls := 18 |}).
Proof. vm_compute. auto. Qed.

(** ** The conversions *)

Section Conversions.
Local Open Scope py_scope.

(** C9.  For every temperature [T], [TempPress_to_PotTemp(T, 1000.0)]
    is [c_to_K(T)], bit for bit: [1000./1000.] is 1.0, [1.0 ** x] is
    1.0 without a call of [pow], and [x * 1.0] is [x].  In particular
    [TempPress_to_PotTemp(20.0, 1000.0)] is 293.15. *)
Theorem TempPress_to_PotTemp_at_p0 (L : libm) (T : num float) :
  TempPress_to_PotTemp T (py 1000) = c_to_K T /\
  TempPress_to_PotTemp (A := binary64 L) (py 20) (py 1000) = Ok (py 293.15).
Proof.
  split; [|vm_compute; reflexivity].
  destruct T as [[|] v]; vm_compute; do 2 f_equal; apply mul_one_r.
Qed.

(** C8, amended.  For every finite [c] for which the real number
    [c + 273.15] is itself a binary64 number [s], so that the addition
    does not round, [(c + 273.15) - 273.15 == c]: the result is [c]
    itself, and +0.0 when [c] is -0.0. *)
Theorem c_to_K_roundtrip_when_sum_is_a_float (L : libm) (k : kind) (c s : float) :
  is_finite c = true -> is_finite s = true ->
  scaled s = (scaled c + scaled 273.15%float)%Z ->
  exists r, c_to_K (Num k c) - 273.15 = Ok (Num k r) /\
            PrimFloat.eqb r c = true /\ (c <> (-0)%float -> r = c).
Proof.
  intros Fc Fs H.
  exists (PrimFloat.sub (PrimFloat.add c 273.15) 273.15). split.
  - destruct k; reflexivity.
  - apply (add_sub_exact c 273.15%float s Fc Fs); [|exact H].
    exists false, 4805305618032230%positive, (-44)%Z. reflexivity.
Qed.

(** The sum is a float, in particular, for every multiple of 2^-43
    with [|c + 273.15| < 1024]: the whole, half and quarter degrees
    from -1297 to 750. *)
Lemma c_to_K_roundtrip_multiples (L : libm) (k : kind) (c : float) :
  is_finite c = true -> (2 ^ 1031 | scaled c)%Z ->
  (Z.abs (scaled c + scaled 273.15%float) < 2 ^ 1084)%Z ->
  exists r, c_to_K (Num k c) - 273.15 = Ok (Num k r) /\
            PrimFloat.eqb r c = true /\ (c <> (-0)%float -> r = c).
Proof.
  intros Fc Hm Hb.
  destruct (sum_of_multiple_is_a_float c Fc Hm Hb) as [s [Fs Hs]].
  exists (PrimFloat.sub (PrimFloat.add c 273.15) 273.15). split.
  - destruct k; reflexivity.
  - apply (add_sub_exact c 273.15%float s Fc Fs); [|exact Hs].
    exists false, 4805305618032230%positive, (-44)%Z. reflexivity.
Qed.

(** In exact arithmetic the round trip loses nothing. *)
Lemma c_to_K_roundtrip_exact (c : num R) :
  c_to_K (A := exact) c - 273.15 = Ok c.
Proof.
  destruct c as [[|] v]; cbn; unfold add_num, sub_num; cbn; do 2 f_equal; ring.
Qed.

(** [svpwat(273.16)] in binary64: the polynomial is [a0], and the
    result is [b / a0 ** 8.] for the [pow] at hand. *)
Lemma svpwat_triple_point_binary64 (L : libm) :
  svpwat (py 273.16) =
  let a0_8 := m_pow 0.999996876 8 in
  if is_infinity a0_8 then Raise OverflowError
  else if PrimFloat.eqb a0_8 0 then Raise ZeroDivisionError
  else Ok (py (PrimFloat.div 6.1078 a0_8)).
Proof.
  vm_compute.
  destruct (PrimFloat.eqb (PrimFloat.abs _) _); [reflexivity|].
  destruct (PrimFloat.eqb _ _); reflexivity.
Qed.

End Conversions.

Section AtReference.
#[local] Existing Instance libm_ref.
Local Open Scope py_scope.

Lemma c_to_K_roundtrip_when_sum_is_a_float_witness :
  exists r, c_to_K (py 20) - 273.15 = Ok (py r) /\
            PrimFloat.eqb r 20 = true /\ (20%float <> (-0)%float -> r = 20%float).
Proof.
  apply (c_to_K_roundtrip_when_sum_is_a_float libm_ref Py 20 293.15);
    vm_compute; reflexivity.
Defined.

(** Where the sum is a float and where it is not: 0.5, 0.25, 100.5,
    239, -274, 750 and -273.15 come back; 751, 1000 and 0.1 do not,
    their sums round.  The condition is sufficient only: 1e30 absorbs
    273.15 both ways. *)
Lemma c_to_K_roundtrip_examples :
  map (fun c => ((scaled (PrimFloat.add c 273.15)
                   =? scaled c + scaled 273.15%float)%Z,
                 PrimFloat.eqb (PrimFloat.sub (PrimFloat.add c 273.15) 273.15) c))
      [0.5; 0.25; 100.5; 239; -274; 750; -273.15; 751; 1000; 0.1; 1e30]%float
  = [(true, true); (true, true); (true, true); (true, true); (true, true);
     (true, true); (true, true); (false, false); (false, false);
     (false, false); (false, true)].
Proof. vm_compute. reflexivity. Qed.

(** C8 as stated fails: [(0.1 + 273.15) - 273.15] is
    0.10000000000002274. *)
Lemma c_to_K_roundtrip_loses_bits :
  c_to_K (py 0.1) - 273.15 = Ok (py 0.10000000000002274).
Proof. vm_compute. reflexivity. Qed.


(** C6 as stated fails: [svpwat(273.16)] is 6.10795..., not 6.1078. *)
Lemma svpwat_triple_point_is_not_b :
  svpwat (py 273.16) = Ok (py 6.1079526482835229).
Proof. vm_compute. reflexivity. Qed.

(** C7 as stated fails: the mixing ratio is 7.7349 g/kg, which is 7.73
    to two decimals, not 7.76. *)
Lemma DwptPress_to_MixRatio_is_not_7_76 :
  DwptPress_to_MixRatio (py 10) (py 1000) = Ok (py 7.7348811332904264).
Proof. vm_compute. reflexivity. Qed.

End AtReference.

(** ** Exact arithmetic *)

Section Exact.
Local Open Scope R_scope.


Lemma R_eq0_false x : x <> 0 -> R_eq0 x = false.
Proof. intros H. unfold R_eq0. now destruct (Req_EM_T x 0). Qed.

Lemma R_float_pow_pos x y :
  0 < x -> y <> 0 -> R_float_pow x y = Ok (Rpower x y).
Proof.
  intros Hx Hy. unfold R_float_pow.
  destruct (Req_EM_T y 0); [contradiction|].
  destruct (Req_EM_T x 0); [lra|].
  destruct (Rlt_dec x 0); [lra|reflexivity].
Qed.

Lemma lt_div (a b c : R) : 0 < c -> a * c < b -> a < b / c.
Proof.
  intros Hc H. apply (Rmult_lt_reg_r c); [exact Hc|].
  unfold Rdiv. rewrite Rmult_assoc, Rinv_l by lra. lra.
Qed.

Lemma div_lt (a b c : R) : 0 < c -> b < a * c -> b / c < a.
Proof.
  intros Hc H. apply (Rmult_lt_reg_r c); [exact Hc|].
  unfold Rdiv. rewrite Rmult_assoc, Rinv_l by lra. lra.
Qed.

(** [svpwat(273.16)] in exact arithmetic: [b / a0^8]. *)
Lemma svpwat_triple_point_exact :
  exists v, svpwat (A := exact) (Num Py 273.16) = Ok (Num Py v) /\
            v = 6.1078 / 0.999996876 ^ 8 /\ 6.10795 < v < 6.10796.
Proof.
  eexists. split; [|split; [reflexivity|]].
  - cbv [svpwat bind lift2 py_add py_sub py_mul py_div py_pow pyfloat ret_num
         add_num sub_num mul_num div_num pow_num join knd val
         lit add sub mul div eq0 float_pow exact].
    replace (273.16 - 273.16) with 0 by ring.
    match goal with |- context [R_float_pow ?x ?y] =>
      replace x with 0.999996876 by ring;
      rewrite (R_float_pow_pos 0.999996876 y) by (unfold Q2R; cbn; lra)
    end.
    rewrite R_eq0_false by (unfold Rpower; apply Rgt_not_eq, exp_pos).
    replace 8.0 with (INR 8) by (unfold Q2R; cbn; lra).
    rewrite Rpower_pow by (unfold Q2R; cbn; lra).
    do 2 f_equal. unfold Q2R; cbn; lra.
  - assert (Hp : 0 < 0.999996876 ^ 8) by (apply pow_lt; unfold Q2R; cbn; lra).
    split.
    + apply lt_div; [exact Hp|]. unfold Q2R; cbn. lra.
    + apply div_lt; [exact Hp|]. unfold Q2R; cbn. lra.
Qed.

(** C6, amended.  [svpwat(273.16)] is [b / a0^8]: with [t - 273.16 = 0]
    the polynomial is [a0 = 0.999996876], not 1.  In binary64 it is
    [6.1078 / pow(0.999996876, 8.)]; in exact arithmetic it is
    between 6.10795 and 6.10796 hPa. *)
Theorem svpwat_triple_point :
  (forall L : libm,
     svpwat (A := binary64 L) (py 273.16) =
     let a0_8 := m_pow 0.999996876 8 in
     if is_infinity a0_8 then Raise OverflowError
     else if PrimFloat.eqb a0_8 0 then Raise ZeroDivisionError
     else Ok (py (PrimFloat.div 6.1078 a0_8))) /\
  (exists v, svpwat (A := exact) (Num Py 273.16) = Ok (Num Py v) /\
             v = 6.1078 / 0.999996876 ^ 8 /\ 6.10795 < v < 6.10796).
Proof.
  split.
  - exact svpwat_triple_point_binary64.
  - exact svpwat_triple_point_exact.
Qed.

(** Bounds of a rational power by integer arithmetic: [lo/den] and
    [hi/den] enclose [b^(p/q)] when their [q]-th powers enclose
    [b^p]. *)
Lemma pow_ratio_lt (a b c : Z) (n : nat) :
  (0 < b)%Z -> (a ^ Z.of_nat n < c * b ^ Z.of_nat n)%Z ->
  (IZR a / IZR b) ^ n < IZR c.
Proof.
  intros Hb H.
  assert (Hb' : 0 < IZR b) by now apply IZR_lt.
  unfold Rdiv. rewrite Rpow_mult_distr, pow_inv.
  apply div_lt; [now apply pow_lt|].
  rewrite !pow_IZR, <- mult_IZR. now apply IZR_lt.
Qed.

Lemma pow_ratio_gt (a b c : Z) (n : nat) :
  (0 < b)%Z -> (c * b ^ Z.of_nat n < a ^ Z.of_nat n)%Z ->
  IZR c < (IZR a / IZR b) ^ n.
Proof.
  intros Hb H.
  assert (Hb' : 0 < IZR b) by now apply IZR_lt.
  unfold Rdiv. rewrite Rpow_mult_distr, pow_inv.
  apply lt_div; [now apply pow_lt|].
  rewrite !pow_IZR, <- mult_IZR. now apply IZR_lt.
Qed.

Lemma root_bounds (X : R) (n : nat) (lo hi den c : Z) :
  0 < X -> X ^ n = IZR c -> (0 < den)%Z -> (0 <= lo)%Z -> (0 <= hi)%Z ->
  (lo ^ Z.of_nat n < c * den ^ Z.of_nat n)%Z ->
  (c * den ^ Z.of_nat n < hi ^ Z.of_nat n)%Z ->
  IZR lo / IZR den < X < IZR hi / IZR den.
Proof.
  intros HX E Hden Hlo Hhi H1 H2.
  assert (Hd : 0 < IZR den) by now apply IZR_lt.
  split; apply Rnot_le_lt; intros H.
  - assert (H' : X ^ n <= (IZR lo / IZR den) ^ n)
      by (apply pow_incr; split; [now left|exact H]).
    rewrite E in H'. apply Rle_not_lt in H'. apply H'.
    now apply pow_ratio_lt.
  - assert (H' : (IZR hi / IZR den) ^ n <= X ^ n).
    { apply pow_incr; split; [|exact H].
      apply Rmult_le_pos; [now apply IZR_le|]. left. now apply Rinv_0_lt_compat. }
    rewrite E in H'. apply Rle_not_lt in H'. apply H'.
    now apply pow_ratio_gt.
Qed.

Lemma Rpower_ratio_bounds (b : Z) (p q : nat) (lo hi den : Z) :
  (0 < b)%Z -> (0 < q)%nat -> (0 < den)%Z -> (0 <= lo)%Z -> (0 <= hi)%Z ->
  (lo ^ Z.of_nat q < b ^ Z.of_nat p * den ^ Z.of_nat q)%Z ->
  (b ^ Z.of_nat p * den ^ Z.of_nat q < hi ^ Z.of_nat q)%Z ->
  IZR lo / IZR den < Rpower (IZR b) (INR p / INR q) < IZR hi / IZR den.
Proof.
  intros Hb Hq Hden Hlo Hhi H1 H2.
  assert (Hb' : 0 < IZR b) by now apply IZR_lt.
  apply (root_bounds _ q lo hi den (b ^ Z.of_nat p)); try assumption.
  - apply exp_pos.
  - rewrite <- Rpower_pow by apply exp_pos.
    rewrite Rpower_mult.
    replace (INR p / INR q * INR q) with (INR p).
    2:{ field. apply not_0_INR. lia. }
    rewrite Rpower_pow by exact Hb'. apply pow_IZR.
Qed.

(** 10^(750/2473), the power in [DwptPress_to_MixRatio(10.0, 1000.0)],
    between 10^(84/277) and 10^(37/122). *)
Lemma ten_to_750_2473 :
  2.01024 < Rpower 10 (750 / 2473) < 2.01039.
Proof.
  split.
  - apply Rlt_trans with (Rpower 10 (INR 84 / INR 277)).
    + replace 2.01024 with (IZR 201024 / IZR 100000) by (unfold Q2R; cbn; lra).
      apply (Rpower_ratio_bounds 10 84 277 201024 201025 100000);
        [reflexivity | apply Nat.ltb_lt; reflexivity | reflexivity
        | discriminate | discriminate
        | apply Z.ltb_lt; vm_compute; reflexivity
        | apply Z.ltb_lt; vm_compute; reflexivity].
    + apply Rpower_lt; [lra|]. rewrite !INR_IZR_INZ.
      change (Z.of_nat 84) with 84%Z. change (Z.of_nat 277) with 277%Z. lra.
  - apply Rlt_trans with (Rpower 10 (INR 37 / INR 122)).
    + apply Rpower_lt; [lra|]. rewrite !INR_IZR_INZ.
      change (Z.of_nat 37) with 37%Z. change (Z.of_nat 122) with 122%Z. lra.
    + replace 2.01039 with (IZR 201039 / IZR 100000) by (unfold Q2R; cbn; lra).
      apply (Rpower_ratio_bounds 10 37 122 201038 201039 100000);
        [reflexivity | apply Nat.ltb_lt; reflexivity | reflexivity
        | discriminate | discriminate
        | apply Z.ltb_lt; vm_compute; reflexivity
        | apply Z.ltb_lt; vm_compute; reflexivity].
Qed.

(** C7, amended.  [DwptPress_to_MixRatio(Tdew=10.0, press=1000.0)],
    [w = 621.97*e/(press-e)] with [e = 6.11*10^(7.5*Tdew/(237.3+Tdew))],
    is between 7.734 and 7.735 g/kg in exact arithmetic: 7.73 to two
    decimals. *)
Theorem DwptPress_to_MixRatio_at_10_1000 :
  exists w,
    DwptPress_to_MixRatio (A := exact) (Num Py 10) (Num Py 1000)
      = Ok (Num Py w) /\
    7.734 < w < 7.735.
Proof.
  pose proof ten_to_750_2473 as HX.
  unfold DwptPress_to_MixRatio. cbn.
  rewrite R_eq0_false by (unfold Q2R; cbn; lra). cbn.
  replace (7.5 * 10 / (237.3 + 10)) with (750 / 2473)
    by (unfold Q2R; cbn; field).
  rewrite R_float_pow_pos.
  2:{ unfold Q2R; cbn; lra. }
  2:{ lra. }
  cbn.
  replace (Q2R 10) with 10 by (unfold Q2R; cbn; lra).
  set (X := Rpower 10 (750 / 2473)) in *.
  rewrite R_eq0_false by (unfold Q2R; cbn; lra). cbn.
  eexists. split; [reflexivity|].
  cbn.
  assert (Hd : 0 < 1000 - 6.11 * X) by (unfold Q2R; cbn; lra).
  replace (621.97 * (6.11 * X / (1000 - 6.11 * X)))
    with (621.97 * (6.11 * X) / (1000 - 6.11 * X)) by (unfold Rdiv; ring).
  split.
  - apply lt_div; [exact Hd|]. unfold Q2R; cbn. lra.
  - apply div_lt; [exact Hd|]. unfold Q2R; cbn. lra.
Qed.





End Exact.

(** * Errors and edge cases *)

(** One step of evaluation for each operator of the module. *)
Ltac py_run :=
  cbv [bind lift2 py_add py_sub py_mul py_div py_pow pyfloat ret_num
       add_num sub_num mul_num div_num pow_num join knd val exp_ log_
       lit add sub mul div eq0 float_pow np_power np_exp np_log
       binary64 exact py np].

(** ** The conversions on Python floats and on numpy scalars *)

Section Errors.
Context (L : libm).
Local Open Scope py_scope.

(** [float ** float] leaves the floats only on a fractional exponent. *)
Lemma py_float_pow_integer iv iw :
  is_integer iw = true -> py_float_pow L iv iw <> Complex.
Proof.
  intros H. unfold py_float_pow. rewrite H, andb_false_r.
  repeat match goal with |- context [if ?b then _ else _] => destruct b end;
    discriminate.
Qed.

(** A negative finite base and a finite fractional exponent: CPython
    calls [pow] on the absolute value for the overflow check, and hands
    the operands to complex exponentiation. *)
Lemma py_float_pow_negative iv iw :
  PrimFloat.ltb iv 0 = true -> is_infinity iv = false ->
  PrimFloat.eqb iw 0 = false -> is_nan iw = false -> is_infinity iw = false ->
  is_integer iw = false ->
  py_float_pow L iv iw =
  if is_infinity (m_pow (PrimFloat.abs iv) iw) then Raise OverflowError
  else Complex.
Proof.
  intros H1 H2 H3 H4 H5 H6. destruct (ltb_0_facts iv H1) as [N Z0].
  unfold py_float_pow. now rewrite H3, N, H4, H5, H2, Z0, H1, H6.
Qed.

(** [svpwat] keeps the kind of its argument.  It raises only on a
    Python float (OverflowError from [** 8.], ZeroDivisionError from
    [b / ...]), and [** 8.] never leaves the floats. *)
Lemma svpwat_outcome (t : num float) :
  match svpwat t with
  | Ok v => knd v = knd t
  | Raise _ => knd t = Py
  | Complex => False
  end.
Proof.
  destruct t as [[|] t]; unfold svpwat; py_run.
  - match goal with |- context [py_float_pow L ?x ?y] =>
      pose proof (py_float_pow_integer x y eq_refl) as H;
      destruct (py_float_pow L x y) as [d| |] end; auto.
    destruct (PrimFloat.eqb _ _); reflexivity.
  - reflexivity.
Qed.

Lemma satmixwat_outcome (p t : num float) :
  match satmixwat p t with
  | Ok v => knd v = join (knd t) (knd p)
  | Raise _ => knd t = Py
  | Complex => False
  end.
Proof.
  unfold satmixwat. pose proof (svpwat_outcome t) as H.
  destruct (svpwat t) as [[k es]| |]; cbn [bind]; auto.
  cbn [knd] in H. subst k. destruct t as [[|] t], p as [[|] p]; py_run; auto.
  destruct (PrimFloat.eqb _ _); reflexivity.
Qed.

(** X1.  At a relative humidity of 100.0 the mixing ratio is the
    saturation mixing ratio, bit for bit and in the same outcome:
    [100.0 * 0.01] is 1.0 and [1.0 * x] is [x]. *)
Theorem rh_to_mr_wat_at_saturation (p t : num float) :
  rh_to_mr_wat (py 100) p t = satmixwat p t.
Proof.
  unfold rh_to_mr_wat.
  destruct (satmixwat p t) as [[k v]| |]; py_run; try reflexivity.
  replace (PrimFloat.mul 100 (Q2F 0.01)) with 1%float
    by (vm_compute; reflexivity).
  rewrite mul_one_l. now destruct k.
Qed.

(** X2.  [rh_to_mr_wat], through [satmixwat] and [svpwat], raises only
    when the temperature is a Python float, whatever the kinds of the
    humidity and of the pressure; it never returns a complex number,
    and its result is a numpy scalar as soon as one argument is. *)
Theorem rh_to_mr_wat_outcome (rh p t : num float) :
  match rh_to_mr_wat rh p t with
  | Ok v => knd v = join (knd rh) (join (knd t) (knd p))
  | Raise _ => knd t = Py
  | Complex => False
  end.
Proof.
  unfold rh_to_mr_wat. pose proof (satmixwat_outcome p t) as H.
  destruct (satmixwat p t) as [[k s]| |]; py_run; auto.
  cbn [knd] in H. subst k. now destruct rh as [[|] rh].
Qed.

(** X3.  A pressure of zero.  With a Python-float temperature
    [satmixwat] raises: the exception of [svpwat] if [svpwat] raises,
    and otherwise ZeroDivisionError, from [(622. * es)/p].  With a
    numpy temperature [es] is a numpy scalar, the division is numpy's,
    and the result [(622. * es)/p] is an infinity or nan. *)
Theorem satmixwat_zero_pressure (p t : float) :
  PrimFloat.eqb p 0 = true ->
  satmixwat (py p) (py t) =
    Raise match svpwat (py t) with
          | Raise e => e
          | _ => ZeroDivisionError
          end /\
  exists es,
    svpwat (np t) = Ok (np es) /\
    satmixwat (py p) (np t) = Ok (np (PrimFloat.div (PrimFloat.mul 622 es) p)) /\
    is_infinity (PrimFloat.div (PrimFloat.mul 622 es) p)
    || is_nan (PrimFloat.div (PrimFloat.mul 622 es) p) = true.
Proof.
  intros Hp. split.
  - unfold satmixwat. pose proof (svpwat_outcome (py t)) as H.
    destruct (svpwat (py t)) as [[k es]| |]; cbn [bind knd py] in *;
      try reflexivity; [|contradiction].
    subst k. py_run. change PrimFloat.zero with 0%float. now rewrite Hp.
  - unfold satmixwat. pose proof (svpwat_outcome (np t)) as H.
    destruct (svpwat (np t)) as [[k es]| |]; cbn [bind knd np] in *;
      try discriminate; try contradiction.
    subst k. exists es. split; [reflexivity|]. split; [reflexivity|].
    now apply div_by_zero.
Qed.

(** X5.  A pressure of zero: [TempPress_to_PotTemp] raises
    ZeroDivisionError when the pressure is a Python float, at
    [p0/press], for every temperature; when it is a numpy scalar the
    division returns an infinity and the call returns. *)
Theorem TempPress_to_PotTemp_zero_pressure (temp : num float) (p : float) :
  PrimFloat.eqb p 0 = true ->
  TempPress_to_PotTemp temp (py p) = Raise ZeroDivisionError /\
  TempPress_to_PotTemp temp (np p) =
    Ok (np (PrimFloat.mul (PrimFloat.add (val temp) 273.15)
              (m_pow (PrimFloat.div 1000 p) (PrimFloat.div 287 1004)))).
Proof.
  intros Hp. destruct temp as [kt temp].
  unfold TempPress_to_PotTemp, c_to_K; py_run.
  change PrimFloat.zero with 0%float. rewrite Hp.
  change (PrimFloat.eqb (Q2F 1004.0) 0) with false. cbv iota beta.
  split; [reflexivity|]. now destruct kt.
Qed.

(** X6.  A negative pressure: when [p0/press] is negative and finite,
    [(p0/press) ** (R/cp)] on Python floats is a complex number (or
    OverflowError, if [pow] overflows), never a float; on a numpy
    pressure the call returns a numpy scalar. *)
Theorem TempPress_to_PotTemp_negative_pressure (temp : num float) (p : float) :
  PrimFloat.ltb (PrimFloat.div 1000 p) 0 = true ->
  is_infinity (PrimFloat.div 1000 p) = false ->
  (TempPress_to_PotTemp temp (py p) = Complex \/
   TempPress_to_PotTemp temp (py p) = Raise OverflowError) /\
  exists v, TempPress_to_PotTemp temp (np p) = Ok (np v).
Proof.
  intros H1 H2. destruct temp as [kt temp].
  unfold TempPress_to_PotTemp, c_to_K; py_run.
  change (PrimFloat.eqb (Q2F 1004.0) PrimFloat.zero) with false. cbv iota beta.
  change (Q2F 1000.0) with 1000%float.
  split.
  - destruct (PrimFloat.eqb p PrimFloat.zero) eqn:Ez.
    { apply div_by_zero_is_infinite in Ez. congruence. }
    rewrite (py_float_pow_negative _ _ H1 H2) by (vm_compute; reflexivity).
    destruct (is_infinity (m_pow _ _)); [right|left]; reflexivity.
  - destruct kt; eauto.
Qed.

(** X8.  [DwptPress_to_MixRatio] raises only when the dew point is a
    Python float; it never returns a complex number (the base of [**]
    is 10), and its result is a numpy scalar as soon as one argument
    is. *)
Theorem DwptPress_to_MixRatio_outcome (Tdew press : num float) :
  match DwptPress_to_MixRatio Tdew press with
  | Ok v => knd v = join (knd Tdew) (knd press)
  | Raise _ => knd Tdew = Py
  | Complex => False
  end.
Proof.
  destruct Tdew as [[|] t], press as [kp p];
    unfold DwptPress_to_MixRatio; py_run; try (now destruct kp).
  destruct (PrimFloat.eqb _ _); [reflexivity|].
  match goal with |- context [py_float_pow L ?x ?y] =>
    assert (H : py_float_pow L x y <> Complex);
    [|destruct (py_float_pow L x y) as [d| |];
      try reflexivity; try contradiction]
  end.
  - unfold py_float_pow. change (Q2F 10) with 10%float.
    change (PrimFloat.ltb 10 0) with false. cbv iota beta. cbn [andb].
    repeat match goal with |- context [if ?b then _ else _] => destruct b end;
      discriminate.
  - destruct kp; [|reflexivity].
    destruct (PrimFloat.eqb _ _); reflexivity.
Qed.

(** X9.  A Python-float dew point with [237.3 + Tdew == 0] raises
    ZeroDivisionError, whatever the pressure. *)
Theorem DwptPress_to_MixRatio_pole (t : float) (press : num float) :
  PrimFloat.eqb (PrimFloat.add 237.3 t) 0 = true ->
  DwptPress_to_MixRatio (py t) press = Raise ZeroDivisionError.
Proof.
  intros H. unfold DwptPress_to_MixRatio; py_run.
  change (Q2F 237.3) with 237.3%float. change PrimFloat.zero with 0%float.
  now rewrite H.
Qed.

(** X11.  In binary64 [THTE] raises ZeroDivisionError exactly when one
    of three divisors between Python floats is zero: [td + 243.5],
    [td + 273.15] (when [t] is a Python float too) or [p].  Otherwise
    it returns the numpy scalar that the same call on numpy scalars
    returns: [np.exp] and [np.log] make every other division and the
    [**] numpy's, so there is no OverflowError and no complex number,
    whatever [exp], [log] and [pow] return. *)
Theorem THTE_errors (p t td : num float) :
  exists v,
    THTE (np (val p)) (np (val t)) (np (val td)) = Ok (np v) /\
    THTE p t td =
    if (is_py td && PrimFloat.eqb (PrimFloat.add (val td) 243.5) 0)
       || (is_py t && is_py td
           && PrimFloat.eqb (PrimFloat.add (val td) 273.15) 0)
       || (is_py p && PrimFloat.eqb (val p) 0)
    then Raise ZeroDivisionError
    else Ok (np v).
Proof.
  exists (THTE_value (val p) (val t) (val td)).
  rewrite !THTE_binary64.
  rewrite (THTE_raises_np (np _) (np _) (np _)) by reflexivity.
  split; reflexivity.
Qed.

End Errors.

(** ** The solver *)

Section SolverEdges.
Context (L : libm).
Local Open Scope float_scope.

Lemma WBT_eq pres tht :
  WBT L pres tht =
  option_map (fun o => bind o (WBT_result L)) (WBT_loop L 100 pres tht).
Proof. reflexivity. Qed.

(** The pass that sets the flag is a Newton step with a small
    correction. *)
Lemma newton_step_body pres tht st st' :
  WBT_cond st = true -> WBT_body L pres tht st = Ok st' ->
  convrg st' = true -> newton_step L pres tht st'.
Proof.
  intros C. rewrite WBT_body_eq. cbv zeta.
  set (g1 := add_num (tgnu st) (py (Q2F 1.0))).
  destruct (THTE_raises pres (tgnu st) (tgnu st)) eqn:R1; [discriminate|].
  destruct (THTE_raises pres g1 g1) eqn:R2; [discriminate|]. cbn [orb].
  unfold WBT_cond in C. apply andb_prop in C. destruct C as [_ C].
  apply negb_true_iff in C.
  destruct (0 <? _) eqn:D; intros H; injection H as <-; cbn [convrg tgnu];
    [|congruence].
  destruct (abs _ <? _) eqn:Ab; [|congruence]. intros _.
  exists (tgnu st), (np (tenu_of L pres (tgnu st))), (np (tenu_of L pres g1)).
  cbv zeta. subst g1. change (Q2F 1.0) with 1 in *. cbn [val np].
  rewrite !THTE_binary64, R1, R2.
  repeat split; try assumption.
Qed.

(** X12.  Whatever [WBT] returns is the nan sentinel or the result of
    a Newton step: there is a guess [g] at which both calls of [THTE]
    returned, the slope [tenup - tenu] was positive and the correction
    [cor = (tht - tenu)/(tenup - tenu)] was below 0.001 in absolute
    value, and the value returned is [(g + cor) + 273.15], a numpy
    scalar. *)
Theorem WBT_returns_a_Newton_step (pres tht v : num float) :
  WBT L pres tht = Some (Ok v) ->
  v = np_nan \/
  exists g tenu tenup : num float,
    let g1 := add_num g (py 1) in
    let cor := (val tht - val tenu) / (val tenup - val tenu) in
    THTE pres g g = Ok tenu /\ THTE pres g1 g1 = Ok tenup /\
    (0 <? val tenup - val tenu) = true /\
    (abs cor <? 0.001) = true /\
    v = np ((val g + cor) + 273.15).
Proof.
  rewrite WBT_eq. unfold WBT_loop.
  destruct (WBT_init L pres tht) as [st0| |] eqn:I; try discriminate.
  destruct (while_ _ _ _ _) as [[st| |]|] eqn:W; try discriminate.
  cbn [option_map bind]. unfold WBT_result.
  destruct (convrg st) eqn:Cv; cbn [negb]; intros H; injection H as <-;
    [right|now left].
  assert (J : convrg st = true -> newton_step L pres tht st).
  { apply (while_invariant WBT_cond (WBT_body L pres tht)
             (fun s => convrg s = true -> newton_step L pres tht s)
             (fun s s' _ => newton_step_body pres tht s s') 100 st0 st);
      [|exact W].
    rewrite WBT_init_eq in I. destruct (WBT_tg L pres tht); try discriminate;
      injection I as <-; discriminate. }
  destruct (J Cv) as (g & tenu & tenup & H1 & H2 & H3 & H4 & H5).
  exists g, tenu, tenup. cbv zeta. repeat split; try assumption.
  rewrite H5. reflexivity.
Qed.

(** X13.  When both calls of [THTE] return at the first guess
    [tht - 273.15] and the slope there is not positive (zero, negative
    or nan), no pass ever moves the guess: [WBT] makes all 100 passes,
    200 calls of [THTE], and returns the nan sentinel. *)
Theorem WBT_nonpositive_slope_at_seed (pres tht tenu tenup : num float) :
  let g := sub_num tht (py 273.15) in
  (forall e, WBT_tg L pres tht <> Raise e) ->
  THTE pres g g = Ok tenu ->
  THTE pres (add_num g (py 1)) (add_num g (py 1)) = Ok tenup ->
  gt_lit (sub_num tenup tenu) 0 = false ->
  WBT_loop L 100 pres tht =
    Some (Ok {| tgnu := g; iterN := 100; convrg := false; calls := 200 |}) /\
  WBT L pres tht = Some (Ok np_nan).
Proof.
  intros g Htg H1 H2 D.
  apply (stuck_WBT L pres tht Htg).
  apply THTE_Ok_inv in H1, H2. destruct H1 as [R1 ->], H2 as [R2 ->].
  split.
  - change (Q2F 1.0) with 1. change (Q2F 273.15) with 273.15.
    fold g. now rewrite R1, R2.
  - exact D.
Qed.

(** X14.  A Python-float pressure of zero: [WBT] raises for every
    [tht].  The first call of [THTE] divides by zero ([1000/p] at the
    latest), unless the guess [tg] has raised before. *)
Theorem WBT_zero_pressure (p : float) (tht : num float) :
  (p =? 0) = true ->
  WBT L (py p) tht =
  Some (Raise match WBT_tg L (py p) tht with
              | Raise e => e
              | _ => ZeroDivisionError
              end).
Proof.
  intros Hp. rewrite WBT_eq. unfold WBT_loop. rewrite WBT_init_eq.
  assert (B : forall st, WBT_body L (py p) tht st = Raise ZeroDivisionError).
  { intros st. rewrite WBT_body_eq. cbv zeta.
    replace (THTE_raises (py p) (tgnu st) (tgnu st)) with true; [reflexivity|].
    unfold THTE_raises. cbn [is_py py knd val eq0 binary64].
    change PrimFloat.zero with 0. rewrite Hp. cbn. now rewrite orb_true_r. }
  destruct (WBT_tg L (py p) tht); try reflexivity;
    cbn [while_ WBT_from WBT_cond iterN convrg Nat.ltb Nat.leb andb negb];
    rewrite B; reflexivity.
Qed.

(** With [tht] nan the correction is nan: a pass keeps a nan guess and
    never sets the flag, and on a numpy pressure no divisor is a zero
    between Python floats. *)
Lemma cor_of_nan pres k g : cor_of L pres (Num k nan) g = nan.
Proof. unfold cor_of. cbn [val]. now rewrite sub_nan_l, div_nan_l. Qed.

Lemma nan_guess_body pres k st st' :
  nan_guess st -> WBT_body L pres (Num k nan) st = Ok st' -> nan_guess st'.
Proof.
  intros [G C]. rewrite WBT_body_eq. cbv zeta.
  destruct (_ || _); [discriminate|].
  destruct (0 <? _); intros H; injection H as <-; split;
    cbn [tgnu convrg val]; try assumption.
  - rewrite cor_of_nan. apply add_nan_r.
  - rewrite cor_of_nan. change (abs nan) with nan. now rewrite ltb_nan_l.
Qed.

Lemma nan_guess_no_raise p k st :
  val (tgnu st) = nan ->
  forall e, WBT_body L (np p) (Num k nan) st <> Raise e.
Proof.
  intros G e. rewrite WBT_body_eq. cbv zeta.
  replace (THTE_raises _ _ _ || _) with false.
  - destruct (0 <? _); discriminate.
  - symmetry. apply orb_false_intro; unfold THTE_raises;
      cbn [is_py np knd val eq0 binary64 add_num add lit andb orb py];
      rewrite G, ?add_nan_l, !eqb_nan_l, !andb_false_r; reflexivity.
Qed.

Lemma nan_loop pres k fuel : forall st, nan_guess st ->
  match while_ WBT_cond (WBT_body L pres (Num k nan)) fuel st with
  | Some (Ok r) => convrg r = false
  | Some (Raise _) => knd pres = Py
  | Some Complex => False
  | None => True
  end.
Proof.
  induction fuel as [|fuel IH]; intros st J; cbn [while_].
  - destruct (WBT_cond st); [exact I|apply J].
  - destruct (WBT_cond st); [|apply J].
    destruct (WBT_body L pres (Num k nan) st) as [st'|e|] eqn:B.
    + apply IH. eapply nan_guess_body; eauto.
    + destruct pres as [[|] p]; [reflexivity|].
      exfalso. revert B. apply nan_guess_no_raise, J.
    + now apply WBT_body_no_complex in B.
Qed.

Lemma WBT_tg_nan_np p k e : WBT_tg L (np p) (Num k nan) <> Raise e.
Proof. destruct k; vm_compute; discriminate. Qed.

(** X15.  [WBT] of a nan [tht] is the nan sentinel, for every pressure
    and whatever [exp], [log] and [pow] return: the guess stays nan
    and the flag is never set.  The call can raise instead only when
    the pressure is a Python float. *)
Theorem WBT_of_nan (pres : num float) (k : kind) :
  match WBT L pres (Num k nan) with
  | Some (Ok v) => v = np_nan
  | Some (Raise _) => knd pres = Py
  | Some Complex | None => False
  end.
Proof.
  destruct (WBT_loop_total L pres (Num k nan) 100 (le_n _)) as [r [E _]].
  rewrite WBT_eq, E. cbn [option_map]. revert E. unfold WBT_loop.
  rewrite WBT_init_eq.
  assert (J : nan_guess (WBT_from (sub_num (Num k nan) (py (Q2F 273.15))))).
  { split; [|reflexivity]. cbn. apply sub_nan_l. }
  pose proof (nan_loop pres k 100 _ J) as H.
  destruct (WBT_tg L pres (Num k nan)) as [tg|e|] eqn:T; intros E;
    try (rewrite E in H; destruct r as [st|e'|]; cbn [bind]; try assumption;
         unfold WBT_result; now rewrite H).
  injection E as <-. cbn [bind].
  destruct pres as [[|] p]; [reflexivity|]. now apply WBT_tg_nan_np in T.
Qed.

(** [THTE] and the correction depend on the numbers only, not on their
    kinds, so a run on Python floats and the run on numpy scalars of
    the same values go through the same states. *)
Lemma tenu_of_val pres pres' g g' :
  val pres = val pres' -> val g = val g' ->
  tenu_of L pres g = tenu_of L pres' g'.
Proof. unfold tenu_of. now intros -> ->. Qed.

Lemma cor_of_val pres pres' tht tht' g g' :
  val pres = val pres' -> val tht = val tht' -> val g = val g' ->
  cor_of L pres tht g = cor_of L pres' tht' g'.
Proof.
  intros Hp Ht Hg. unfold cor_of.
  rewrite (tenu_of_val pres pres' g g' Hp Hg), Ht.
  rewrite (tenu_of_val pres pres' (add_num g (py (Q2F 1.0)))
             (add_num g' (py (Q2F 1.0)))); auto.
  cbn. now rewrite Hg.
Qed.

Lemma same_run_body pres tht st st' s1 :
  same_run st st' -> WBT_cond st = true -> WBT_body L pres tht st = Ok s1 ->
  exists s1', WBT_body L (np (val pres)) (np (val tht)) st' = Ok s1' /\
              same_run s1 s1'.
Proof.
  intros (Hv & Hk & Hi & Hc & Hn & Hkc) C. rewrite !WBT_body_eq. cbv zeta.
  destruct (_ || _); [discriminate|].
  rewrite !THTE_raises_np; try reflexivity; try exact Hk;
    try (unfold add_num; now rewrite Hk).
  cbn [orb].
  rewrite <- (tenu_of_val pres (np (val pres)) (tgnu st) (tgnu st') eq_refl Hv).
  rewrite <- (tenu_of_val pres (np (val pres))
                (add_num (tgnu st) (py (Q2F 1.0)))
                (add_num (tgnu st') (py (Q2F 1.0))) eq_refl)
    by (cbn; now rewrite Hv).
  rewrite <- (cor_of_val pres (np (val pres)) tht (np (val tht))
                (tgnu st) (tgnu st') eq_refl eq_refl Hv).
  unfold WBT_cond in C. apply andb_prop in C. destruct C as [_ C].
  apply negb_true_iff in C.
  destruct (0 <? _); intros H; injection H as <-; eexists;
    (split; [reflexivity|]);
    unfold same_run; cbn [tgnu iterN convrg calls val knd];
    rewrite <- ?Hv, <- ?Hi, <- ?Hc, <- ?Hn; repeat split; auto.
Qed.

Lemma same_run_loop pres tht fuel : forall st st' r,
  same_run st st' ->
  while_ WBT_cond (WBT_body L pres tht) fuel st = Some (Ok r) ->
  exists r',
    while_ WBT_cond (WBT_body L (np (val pres)) (np (val tht))) fuel st'
      = Some (Ok r') /\ same_run r r'.
Proof.
  induction fuel as [|fuel IH]; intros st st' r S; cbn [while_];
    assert (C : WBT_cond st' = WBT_cond st)
      by (destruct S as (_ & _ & Hi & Hc & _); unfold WBT_cond;
          now rewrite Hi, Hc);
    rewrite C.
  - destruct (WBT_cond st); [discriminate|]. intros H; injection H as <-. eauto.
  - destruct (WBT_cond st) eqn:Cd; [|intros H; injection H as <-; eauto].
    destruct (WBT_body L pres tht st) as [s1| |] eqn:B; try discriminate.
    destruct (same_run_body pres tht st st' s1 S Cd B) as [s1' [-> S1]].
    now apply IH.
Qed.

(** X16.  What [WBT] returns on Python floats it returns on numpy
    scalars of the same values, the same number and the same kind:
    the two kinds differ only where the Python floats raise. *)
Theorem WBT_float_agrees_with_numpy (pres tht v : num float) :
  WBT L pres tht = Some (Ok v) ->
  WBT L (np (val pres)) (np (val tht)) = Some (Ok v).
Proof.
  rewrite !WBT_eq. unfold WBT_loop. rewrite !WBT_init_eq.
  destruct (WBT_tg_np L (val pres) (val tht)) as [tg' ->].
  assert (S : same_run (WBT_from (sub_num tht (py (Q2F 273.15))))
                (WBT_from (sub_num (np (val tht)) (py (Q2F 273.15))))).
  { unfold same_run; cbn. repeat split; auto. discriminate. }
  assert (K : forall r,
            while_ WBT_cond (WBT_body L pres tht) 100
              (WBT_from (sub_num tht (py (Q2F 273.15)))) = Some (Ok r) ->
            bind (Ok r) (WBT_result L) = Ok v ->
            option_map (fun o => bind o (WBT_result L))
              (while_ WBT_cond (WBT_body L (np (val pres)) (np (val tht))) 100
                 (WBT_from (sub_num (np (val tht)) (py (Q2F 273.15)))))
            = Some (Ok v)).
  { intros r W R.
    destruct (same_run_loop pres tht 100 _ _ r S W) as [r' [-> S']].
    cbn [option_map bind] in *. unfold WBT_result in *.
    destruct S' as (Hv & Hk & _ & Hc & _ & Hkc). rewrite <- Hc.
    destruct (convrg r); cbn [negb] in *; [|now rewrite R].
    rewrite <- R. cbn. unfold add_num.
    rewrite Hk, Hkc, Hv by reflexivity. reflexivity. }
  destruct (WBT_tg L pres tht);
    (destruct (while_ _ _ _ _) as [[r| |]|] eqn:W; try discriminate;
     cbn [option_map]; intros H; injection H as H; now apply (K r)).
Qed.

End SolverEdges.

(** ** The properties above at concrete inputs *)

Section EdgesAtReference.
#[local] Existing Instance libm_ref.
Local Open Scope py_scope.

Lemma satmixwat_zero_pressure_witness :
  satmixwat (py 0) (py 300) = Raise ZeroDivisionError /\
  exists es,
    svpwat (np 300) = Ok (np es) /\
    satmixwat (py 0) (np 300) = Ok (np (PrimFloat.div (PrimFloat.mul 622 es) 0)) /\
    is_infinity (PrimFloat.div (PrimFloat.mul 622 es) 0)
    || is_nan (PrimFloat.div (PrimFloat.mul 622 es) 0) = true.
Proof. apply (satmixwat_zero_pressure libm_ref 0 300). reflexivity. Defined.

Lemma TempPress_to_PotTemp_zero_pressure_witness :
  TempPress_to_PotTemp (py 20) (py 0) = Raise ZeroDivisionError /\
  TempPress_to_PotTemp (py 20) (np 0) =
    Ok (np (PrimFloat.mul (PrimFloat.add 20 273.15)
              (m_pow (PrimFloat.div 1000 0) (PrimFloat.div 287 1004)))).
Proof.
  apply (TempPress_to_PotTemp_zero_pressure libm_ref (py 20) 0). reflexivity.
Defined.

Lemma TempPress_to_PotTemp_negative_pressure_witness :
  (TempPress_to_PotTemp (py 20) (py (-500)) = Complex \/
   TempPress_to_PotTemp (py 20) (py (-500)) = Raise OverflowError) /\
  exists v, TempPress_to_PotTemp (py 20) (np (-500)) = Ok (np v).
Proof.
  apply (TempPress_to_PotTemp_negative_pressure libm_ref (py 20) (-500));
    reflexivity.
Defined.

Lemma DwptPress_to_MixRatio_pole_witness :
  DwptPress_to_MixRatio (py (-237.3)) (py 1000) = Raise ZeroDivisionError.
Proof.
  apply (DwptPress_to_MixRatio_pole libm_ref (-237.3) (py 1000)). reflexivity.
Defined.

Lemma WBT_returns_a_Newton_step_witness :
  np 281.20618019313656 = np_nan \/
  exists g tenu tenup : num float,
    let g1 := add_num g (py 1) in
    let cor := PrimFloat.div (PrimFloat.sub 300 (val tenu))
                 (PrimFloat.sub (val tenup) (val tenu)) in
    THTE (py 1000) g g = Ok tenu /\ THTE (py 1000) g1 g1 = Ok tenup /\
    PrimFloat.ltb 0 (PrimFloat.sub (val tenup) (val tenu)) = true /\
    PrimFloat.ltb (PrimFloat.abs cor) 0.001 = true /\
    np 281.20618019313656
    = np (PrimFloat.add (PrimFloat.add (val g) cor) 273.15).
Proof.
  apply (WBT_returns_a_Newton_step libm_ref (py 1000) (py 300)
           (np 281.20618019313656)).
  vm_compute. reflexivity.
Defined.

Lemma WBT_nonpositive_slope_at_seed_witness :
  WBT_loop libm_ref 100 (py 1000) (np 386.72910008997053) =
    Some (Ok {| tgnu := sub_num (np 386.72910008997053) (py 273.15);
                iterN := 100; convrg := false; calls := 200 |}) /\
  WBT libm_ref (py 1000) (np 386.72910008997053) = Some (Ok np_nan).
Proof.
  apply (WBT_nonpositive_slope_at_seed libm_ref (py 1000)
           (np 386.72910008997053)
           (np 3333.3229442634424) (np 1824.9568294372821)).
  - intros e. vm_compute. discriminate.
  - vm_compute. reflexivity.
  - vm_compute. reflexivity.
  - vm_compute. reflexivity.
Defined.

Lemma WBT_zero_pressure_witness :
  WBT libm_ref (py 0) (py 300) = Some (Raise ZeroDivisionError).
Proof. apply (WBT_zero_pressure libm_ref 0 (py 300)). reflexivity. Defined.

Lemma WBT_float_agrees_with_numpy_witness :
  WBT libm_ref (np 1000) (np 300) = Some (Ok (np 281.20618019313656)).
Proof.
  apply (WBT_float_agrees_with_numpy libm_ref (py 1000) (py 300)
           (np 281.20618019313656)).
  vm_compute. reflexivity.
Defined.

End EdgesAtReference.
